(** * The account registry of the accounts context

    A shallow embedding of [src/accounts/AccountsContext.tsx]: the React
    provider that keeps the map of connected accounts, refreshes balances
    and signers, and mirrors the map into [localStorage].

    Reading guide.
    - JavaScript objects held in the [accounts] map are shared by reference
      between the map of one render and the copy made by [new Map(prev)];
      [reinitializePolkadotAccountsWithBalance] assigns to their fields in
      place.  The registry is therefore a map from address to a location,
      together with an object store.
    - An asynchronous operation is given as a function of the state in
      which its [setAccounts] is applied; what it awaited (the answers of
      the balance service and of the wallets) is an argument.
      [reinitializePolkadotAccountsWithBalance] reads the map of the
      render that started it: it is given for a registry that has not
      been replaced between its start and its end.
    - A promise that rejects, or a call that throws, is a [Rejected] value.
    - The effects that React runs after a render are applied at the end of
      the operation that scheduled the state update. *)

From Stdlib Require Import ZArith String Ascii List Bool Arith Lia.
From Stdlib Require Import Floats DecimalString.
Import ListNotations.
Local Open Scope string_scope.
Local Open Scope list_scope.

Set Implicit Arguments.
Set Warnings "-register-all".

(* ------------------------------------------------------------------ *)
(** ** JavaScript values used by the provider *)

(** The result of awaiting a promise (or of a call that may throw). *)
Inductive Promise (A : Type) : Type :=
| Fulfilled (a : A)
| Rejected (e : string).
Arguments Fulfilled {A} a.
Arguments Rejected {A} e.

(** [!s] for a value that is either [undefined] or a string: [undefined]
    and the empty string are falsy. *)
Definition truthy (s : option string) : bool :=
  match s with
  | Some EmptyString | None => false
  | Some _ => true
  end.

(** *** Numbers *)

(** The double nearest to [m * 2^e] (round to nearest, ties to even). *)
Definition Number_of_binary (m e : Z) : float :=
  SF2Prim (SpecFloat.binary_normalize prec emax m e false).

(** The double nearest to an integer. *)
Definition Number_of_Z (z : Z) : float := Number_of_binary z 0.

(** The double nearest to [m * 10^e10] for [m >= 0], with the sign given
    apart (so that ["-0"] is the negative zero).  A negative power of ten
    is divided out with [s] extra binary digits, enough for 64 digits of
    quotient and never more than 1100, and a last digit that records an
    inexact quotient: no double and no midpoint of two doubles lies
    strictly between two such quotients, so the rounding is that of the
    exact value.  Beyond the bounds the value is past the largest double
    or under half the smallest one. *)
Definition Number_of_decimal (negative : bool) (m e10 : Z) : float :=
  let signed (z : Z) := if negative then (- z)%Z else z in
  if (m =? 0)%Z then (if negative then neg_zero else zero)
  else if (400 <? e10)%Z
  then (if negative then neg_infinity else infinity)
  else if (0 <=? e10)%Z then Number_of_binary (signed (m * 10 ^ e10)%Z) 0
  else if (e10 <? - (Z.log2 m + 400))%Z
  then (if negative then neg_zero else zero)
  else
    let d := (10 ^ (- e10))%Z in
    let s := Z.min 1100 (Z.max 0 (Z.log2 d - Z.log2 m + 64)) in
    let n := (m * 2 ^ s)%Z in
    let inexact := if (n mod d =? 0)%Z then 0%Z else 1%Z in
    Number_of_binary (signed (2 * (n / d) + inexact)%Z) (- (s + 1)).

(** Text is held as its UTF-8 bytes. *)
Definition bytes (l : list nat) : string :=
  string_of_list_ascii (map ascii_of_nat l).

(** [StrWhiteSpaceChar]: TAB, LF, VT, FF, CR, SP, NBSP, the space
    separators U+1680, U+2000..U+200A, U+202F, U+205F, U+3000, the line
    and paragraph separators U+2028, U+2029, and U+FEFF. *)
Definition StrWhiteSpaceChar : list string :=
  map bytes
      [[9]; [10]; [11]; [12]; [13]; [32]; [194; 160]; [225; 154; 128];
       [226; 128; 128]; [226; 128; 129]; [226; 128; 130]; [226; 128; 131];
       [226; 128; 132]; [226; 128; 133]; [226; 128; 134]; [226; 128; 135];
       [226; 128; 136]; [226; 128; 137]; [226; 128; 138]; [226; 128; 168];
       [226; 128; 169]; [226; 128; 175]; [226; 129; 159]; [227; 128; 128];
       [239; 187; 191]]%nat.

Fixpoint dropPrefix (p s : string) : option string :=
  match p, s with
  | EmptyString, _ => Some s
  | String a p', String b s' =>
      if Ascii.eqb a b then dropPrefix p' s' else None
  | String _ _, EmptyString => None
  end.

Fixpoint dropOneOf (ps : list string) (s : string) : option string :=
  match ps with
  | [] => None
  | p :: ps' =>
      match dropPrefix p s with
      | Some r => Some r
      | None => dropOneOf ps' s
      end
  end.

Fixpoint skipWhiteSpace (fuel : nat) (s : string) : string :=
  match fuel with
  | O => s
  | S fuel' =>
      match dropOneOf StrWhiteSpaceChar s with
      | Some r => skipWhiteSpace fuel' r
      | None => s
      end
  end.

Definition onlyWhiteSpace (s : string) : bool :=
  match skipWhiteSpace (String.length s) s with
  | EmptyString => true
  | String _ _ => false
  end.

(** The value of a digit in a radix up to 16, letters in either case. *)
Definition digit_of_ascii (radix : Z) (c : ascii) : option Z :=
  let n := Z.of_nat (nat_of_ascii c) in
  let v :=
    if (48 <=? n)%Z && (n <=? 57)%Z then Some (n - 48)%Z
    else if (97 <=? n)%Z && (n <=? 102)%Z then Some (n - 87)%Z
    else if (65 <=? n)%Z && (n <=? 70)%Z then Some (n - 55)%Z
    else None in
  match v with
  | Some d => if (d <? radix)%Z then Some d else None
  | None => None
  end.

(** The longest run of digits at the head of [s]: its value after [acc],
    its length after [count], and the rest of the text. *)
Fixpoint readDigits (radix : Z) (s : string) (acc : Z) (count : nat)
  : Z * nat * string :=
  match s with
  | EmptyString => (acc, count, s)
  | String c s' =>
      match digit_of_ascii radix c with
      | Some d => readDigits radix s' (radix * acc + d)%Z (S count)
      | None => (acc, count, s)
      end
  end.

Definition readSign (s : string) : bool * string :=
  match s with
  | String "+" r => (false, r)
  | String "-" r => (true, r)
  | _ => (false, s)
  end.

(** [NonDecimalIntegerLiteral]: [0x], [0o], [0b] and digits; no sign. *)
Definition NonDecimalIntegerLiteral (s : string) : option (Z * string) :=
  match s with
  | String "0" (String c r) =>
      let radix :=
        if Ascii.eqb c "x" || Ascii.eqb c "X" then Some 16%Z
        else if Ascii.eqb c "o" || Ascii.eqb c "O" then Some 8%Z
        else if Ascii.eqb c "b" || Ascii.eqb c "B" then Some 2%Z
        else None in
      match radix with
      | Some b =>
          match readDigits b r 0 0 with
          | (_, O, _) => None
          | (v, S _, rest) => Some (v, rest)
          end
      | None => None
      end
  | _ => None
  end.

(** [ExponentPart], when there is one: [e] or [E], a sign, digits. *)
Definition readExponentPart (s : string) : option (Z * string) :=
  match s with
  | String c s1 =>
      if Ascii.eqb c "e" || Ascii.eqb c "E" then
        let '(negative, s2) := readSign s1 in
        match readDigits 10 s2 0 0 with
        | (_, O, _) => None
        | (x, S _, rest) => Some (if negative then (- x)%Z else x, rest)
        end
      else Some (0%Z, s)
  | EmptyString => Some (0%Z, s)
  end.

Inductive Literal : Type :=
| DecimalLiteral (m e10 : Z)
| InfinityLiteral.

(** [StrUnsignedDecimalLiteral]: [Infinity], or digits with an optional
    fraction and exponent, at least one digit before the exponent. *)
Definition StrUnsignedDecimalLiteral (s : string)
  : option (Literal * string) :=
  match dropPrefix "Infinity" s with
  | Some rest => Some (InfinityLiteral, rest)
  | None =>
      let '(i, ni, s1) := readDigits 10 s 0 0 in
      let '(m, nf, s2) :=
        match s1 with
        | String "." r => readDigits 10 r i 0
        | _ => (i, O, s1)
        end in
      if (ni + nf =? 0)%nat then None
      else
        match readExponentPart s2 with
        | Some (x, rest) => Some (DecimalLiteral m (x - Z.of_nat nf), rest)
        | None => None
        end
  end.

(** [Number(s)] for a string: white space around the literal is
    dropped, the empty text is [0], a numeric literal is converted to
    the nearest double, any other text is [NaN]. *)
Definition Number (s : string) : float :=
  match skipWhiteSpace (String.length s) s with
  | EmptyString => zero
  | String _ _ as t =>
      match NonDecimalIntegerLiteral t with
      | Some (v, rest) => if onlyWhiteSpace rest then Number_of_Z v else nan
      | None =>
          let '(negative, t1) := readSign t in
          match StrUnsignedDecimalLiteral t1 with
          | Some (InfinityLiteral, rest) =>
              if onlyWhiteSpace rest
              then (if negative then neg_infinity else infinity)
              else nan
          | Some (DecimalLiteral m e10, rest) =>
              if onlyWhiteSpace rest then Number_of_decimal negative m e10
              else nan
          | None => nan
          end
      end
  end.

(** The integer a double stands for, when it is one. *)
Definition integerValue (x : float) : option Z :=
  match Prim2SF x with
  | SpecFloat.S754_zero _ => Some 0%Z
  | SpecFloat.S754_finite s m e =>
      let signed (z : Z) := if s then (- z)%Z else z in
      if (0 <=? e)%Z then Some (signed (Z.pos m * 2 ^ e)%Z)
      else if (Z.pos m mod 2 ^ (- e) =? 0)%Z
      then Some (signed (Z.pos m / 2 ^ (- e))%Z)
      else None
  | _ => None
  end.

(** [Math.pow(10, n)] for a natural exponent, as the correctly rounded
    power (exact up to [10^22]). *)
Definition Math_pow10 (n : nat) : float :=
  Number_of_Z (10 ^ Z.of_nat n).

(** [String(n)] for an integer. *)
Definition String_of_Z (z : Z) : string :=
  NilZero.string_of_int (Z.to_int z).

(** *** JSON documents *)

Inductive json : Type :=
| JNull
| JBool (b : bool)
| JNum (x : float)
| JStr (s : string)
| JArr (items : list json)
| JObj (members : list (string * json)).

Fixpoint member (k : string) (ms : list (string * json)) : option json :=
  match ms with
  | [] => None
  | (k', v) :: ms' => if String.eqb k k' then Some v else member k ms'
  end.

(** *** [Map<string, V>]: insertion-ordered, one entry per key *)

Definition JSMap (V : Type) : Type := list (string * V).

Section JSMapOps.
Variable V : Type.

Fixpoint Map_get (k : string) (m : JSMap V) : option V :=
  match m with
  | [] => None
  | (k', v) :: m' => if String.eqb k k' then Some v else Map_get k m'
  end.

(** [m.set(k, v)]: an existing key keeps its position. *)
Fixpoint Map_set (k : string) (v : V) (m : JSMap V) : JSMap V :=
  match m with
  | [] => [(k, v)]
  | (k', v') :: m' =>
      if String.eqb k k' then (k, v) :: m' else (k', v') :: Map_set k v m'
  end.

Fixpoint Map_delete (k : string) (m : JSMap V) : JSMap V :=
  match m with
  | [] => []
  | (k', v') :: m' =>
      if String.eqb k k' then m' else (k', v') :: Map_delete k m'
  end.

Definition Map_size (m : JSMap V) : nat := length m.

Definition Map_keys (m : JSMap V) : list string := map fst m.

Definition Map_values (m : JSMap V) : list V := map snd m.

(** [new Map(entries)] and [entries.forEach((v, k) => m.set(k, v))]. *)
Definition Map_set_all (entries : list (string * V)) (m : JSMap V) : JSMap V :=
  fold_left (fun acc e => Map_set (fst e) (snd e) acc) entries m.

Definition Map_of_entries (entries : list (string * V)) : JSMap V :=
  Map_set_all entries [].

(** The representation invariant of a [Map]. *)
Definition Map_wf (m : JSMap V) : Prop := NoDup (Map_keys m).
End JSMapOps.

(* ------------------------------------------------------------------ *)
(** ** Data model (types.ts is read off its uses in the provider) *)

Inductive SignerTypeEnum : Type := Ethereum | Polkadot.

Definition SignerTypeEnum_eqb (a b : SignerTypeEnum) : bool :=
  match a, b with
  | Ethereum, Ethereum | Polkadot, Polkadot => true
  | _, _ => false
  end.

(** An opaque capability object handed out by a wallet extension,
    identified by its object identity. *)
Inductive Handle : Type := HandleRef (id : nat).

Record Account : Type := mkAccount {
  address : string;
  signerType : SignerTypeEnum;
  name : string;
  signer : option Handle;
  normalizedAddress : string;
  sign : option Handle;
  balance : option float;
  walletType : option string
}.

Definition with_signer (s : option Handle) (a : Account) : Account :=
  mkAccount (address a) (signerType a) (name a) s (normalizedAddress a)
            (sign a) (balance a) (walletType a).

Definition with_balance (b : option float) (a : Account) : Account :=
  mkAccount (address a) (signerType a) (name a) (signer a)
            (normalizedAddress a) (sign a) b (walletType a).

Definition with_signerType (t : SignerTypeEnum) (a : Account) : Account :=
  mkAccount (address a) t (name a) (signer a) (normalizedAddress a)
            (sign a) (balance a) (walletType a).

Definition isEthereum (a : Account) : bool :=
  SignerTypeEnum_eqb (signerType a) Ethereum.

Definition isPolkadot (a : Account) : bool :=
  SignerTypeEnum_eqb (signerType a) Polkadot.

(** The answer of [sdk.balance.get]. *)
Record BalanceResponse : Type := mkBalanceResponse {
  available : string;
  decimals : nat
}.

(** [Number(r.available) / Math.pow(10, Number(r.decimals))]. *)
Definition balance_of_response (r : BalanceResponse) : float :=
  PrimFloat.div (Number (available r)) (Math_pow10 (decimals r)).

(** [sdk]: only [sdk.balance.get({ address })] is used. *)
Definition Sdk : Type := string -> Promise BalanceResponse.

(** [new PolkadotWallet(walletType).getAccounts()]: the accounts of one
    extension, keyed by normalized address. *)
Definition WalletExtensions : Type :=
  option string -> Promise (JSMap Account).

(** [connectWallet(walletName)]: the accounts granted by a named wallet,
    keyed by address. *)
Definition WalletCenter : Type := string -> Promise (JSMap Account).

(* ------------------------------------------------------------------ *)
(** ** The host environment *)

(** Library functions whose code is outside the provider.
    - [JSON_parse] is [None] when [JSON.parse] throws a [SyntaxError].
    - [entries_of_json] reads a parsed document as the [[key, account]]
      pairs that [new Map(parsedAccounts)] iterates; [None] when the
      constructor throws.
    - [Handle_toJSON] is what [JSON.stringify] renders of the [sign]
      member ([None] when the member is left out, as for a function).
    - [SignerTypeEnum_value] is the run-time value of an enum member. *)
Class Runtime : Type := {
  JSON_stringify : json -> string;
  JSON_parse : string -> option json;
  entries_of_json : json -> option (list (string * Account));
  Handle_toJSON : Handle -> option json;
  SignerTypeEnum_value : SignerTypeEnum -> string;
  substrateOrMirrorIfEthereumNormalized : string -> string
}.

Inductive Event : Type :=
| ConsoleError (msg : string)
| Alert (msg : string).

Definition Storage : Type := string -> option string.

Definition getItem (k : string) (s : Storage) : option string := s k.

Definition setItem (k v : string) (s : Storage) : Storage :=
  fun k' => if String.eqb k' k then Some v else s k'.

Definition removeItem (k : string) (s : Storage) : Storage :=
  fun k' => if String.eqb k' k then None else s k'.

(** ** Component state *)

Definition loc : Type := nat.

Definition Heap : Type := loc -> Account.

Definition write (l : loc) (a : Account) (h : Heap) : Heap :=
  fun l' => if Nat.eqb l' l then a else h l'.

(** A location no entry of the map refers to: where a new object lives. *)
Definition fresh (m : JSMap loc) : loc := S (list_max (Map_values m)).

(** The objects of a list of entries, placed at consecutive locations. *)
Fixpoint alloc_all (base : loc) (es : list (string * Account)) (h : Heap)
  : Heap * list (string * loc) :=
  match es with
  | [] => (h, [])
  | (k, a) :: es' =>
      let '(h', ls) := alloc_all (S base) es' (write base a h) in
      (h', (k, base) :: ls)
  end.

Record State : Type := mkState {
  heap : Heap;
  accounts : JSMap loc;
  selectedAccountId : Z;
  localStorage : Storage;
  console : list Event
}.

(** What a reader of the context sees: the entries of [accounts] with the
    current contents of their objects. *)
Definition snapshot (st : State) : list (string * Account) :=
  map (fun e => (fst e, heap st (snd e))) (accounts st).

Definition logged (ev : Event) (st : State) : State :=
  mkState (heap st) (accounts st) (selectedAccountId st) (localStorage st)
          (console st ++ [ev]).

Definition stored (f : Storage -> Storage) (st : State) : State :=
  mkState (heap st) (accounts st) (selectedAccountId st)
          (f (localStorage st)) (console st).

Section Provider.
Context {RT : Runtime}.

(** [JSON.stringify] of a number: [NaN] and the infinities become [null]. *)
Definition number_toJSON (x : float) : json :=
  if PrimFloat.is_nan x || PrimFloat.is_infinity x then JNull else JNum x.

Definition optional {A : Type} (k : string) (f : A -> option json)
           (v : option A) : list (string * json) :=
  match v with
  | Some x => match f x with Some j => [(k, j)] | None => [] end
  | None => []
  end.

(** Modelled from the spec: the serialized form of a [signer] handle.
    The class of the handle is declared in [types.ts] and built in
    [PolkadotWallet.ts], which are not among the sources; the spec has
    the signer "not persisted (excluded from serialized form)", so
    [JSON.stringify] leaves the member out. *)
Definition signer_toJSON (h : Handle) : option json := None.

(** [JSON.stringify] of an account object, members in the order of the
    object literal of line 100: a member that is [undefined] is left
    out. *)
Definition Account_toJSON (a : Account) : json :=
  JObj ([("address", JStr (address a));
         ("signerType", JStr (SignerTypeEnum_value (signerType a)));
         ("name", JStr (name a))]
        ++ optional "signer" signer_toJSON (signer a)
        ++ [("normalizedAddress", JStr (normalizedAddress a))]
        ++ optional "sign" Handle_toJSON (sign a)
        ++ optional "balance" (fun x => Some (number_toJSON x)) (balance a)
        ++ optional "walletType" (fun w => Some (JStr w)) (walletType a)).

(** [[...accounts]] as a document. *)
Definition entries_toJSON (es : list (string * Account)) : json :=
  JArr (map (fun e => JArr [JStr (fst e); Account_toJSON (snd e)]) es).

(** [useEffect(..., [accounts])], lines 72-76. *)
Definition accountsEffect (st : State) : State :=
  if (0 <? Map_size (accounts st))%nat
  then stored (setItem "accounts"
                 (JSON_stringify (entries_toJSON (snapshot st)))) st
  else st.

(** [useEffect(..., [selectedAccountId])], lines 92-94. *)
Definition selectedAccountIdEffect (st : State) : State :=
  stored (setItem "selectedAccountId"
            (String_of_Z (selectedAccountId st))) st.

(** [selectedAccount], lines 85-88: [[...accounts.values()][id]]. *)
Definition selectedAccount (st : State) : option Account :=
  if (0 <=? selectedAccountId st)%Z
  then nth_error (map (heap st) (Map_values (accounts st)))
                 (Z.to_nat (selectedAccountId st))
  else None.

(** [setSelectedAccountId(id)], followed by the effect of line 92 when
    the value changed. *)
Definition setSelectedAccountId (id : Z) (st : State) : State :=
  let st' := mkState (heap st) (accounts st) id (localStorage st)
                     (console st) in
  if (selectedAccountId st =? id)%Z then st' else selectedAccountIdEffect st'.

(** [clearAccounts], lines 78-83. *)
Definition clearAccounts (st : State) : State :=
  let storage := removeItem "selectedAccountId"
                   (removeItem "accounts" (localStorage st)) in
  let st' := mkState (heap st) [] 0%Z storage (console st) in
  let st' := accountsEffect st' in
  if (selectedAccountId st =? 0)%Z then st' else selectedAccountIdEffect st'.

(** The restore effect run once on mount, lines 57-70. *)
Definition restoreEffect (st : State) : State :=
  let savedAccounts := getItem "accounts" (localStorage st) in
  if negb (truthy savedAccounts) then
    let st' := mkState (heap st) [] 0%Z (localStorage st) (console st) in
    let st' := accountsEffect st' in
    if (selectedAccountId st =? 0)%Z then st' else selectedAccountIdEffect st'
  else
    match savedAccounts with
    | None => st
    | Some saved =>
        match JSON_parse saved with
        | Some parsedAccounts =>
            match entries_of_json parsedAccounts with
            | Some entries =>
                let '(h, ls) :=
                  alloc_all (fresh (accounts st)) entries (heap st) in
                accountsEffect
                  (mkState h (Map_of_entries ls) (selectedAccountId st)
                           (localStorage st) (console st))
            | None =>
                logged (ConsoleError
                          "Failed to restore accounts from localStorage") st
            end
        | None =>
            logged (ConsoleError
                      "Failed to restore accounts from localStorage") st
        end
    end.

(** [updateEthereumWallet], lines 96-110.  The address normalizer is
    total here (the library throws on text that is not an address). *)
Definition updateEthereumWallet (sdk : option Sdk) (address : option string)
           (st : State) : State * Promise unit :=
  match sdk, address with
  | Some sdk, Some addr =>
      if negb (truthy address) then (st, Fulfilled tt) else
      let ethereumAddress := substrateOrMirrorIfEthereumNormalized addr in
      let account := mkAccount addr Ethereum "" None "" None None None in
      match sdk ethereumAddress with
      | Rejected e => (st, Rejected e)
      | Fulfilled balanceResponse =>
          let account :=
            with_balance (Some (balance_of_response balanceResponse))
                         account in
          let l := fresh (accounts st) in
          (accountsEffect
             (mkState (write l (with_balance (balance account) account)
                             (heap st))
                      (Map_set ethereumAddress l (accounts st))
                      (selectedAccountId st) (localStorage st) (console st)),
           Fulfilled tt)
      end
  | _, _ => (st, Fulfilled tt)
  end.

(** One turn of the loop of [reinitializePolkadotAccountsWithBalance],
    lines 120-136, on the entry [[address, account]].  The loop state is
    the object store, the [updatedPolkadotAccounts] map and the console. *)
Definition reinitializeAccount (sdk : Sdk) (wallets : WalletExtensions)
           (s : Heap * JSMap loc * list Event) (entry : string * loc)
  : Heap * JSMap loc * list Event :=
  let '(h, updatedPolkadotAccounts, log) := s in
  let '(address, account) := entry in
  if isPolkadot (h account) then
    match wallets (walletType (h account)) with
    | Rejected e =>
        (h, updatedPolkadotAccounts,
         log ++ [ConsoleError
                   ("Failed to reinitialize Polkadot account "
                      ++ address ++ ":")])
    | Fulfilled walletAccounts =>
        match Map_get (normalizedAddress (h account)) walletAccounts with
        | Some walletAccount =>
            let h1 :=
              write account (with_signer (signer walletAccount) (h account))
                    h in
            match sdk address with
            | Rejected e =>
                (h1, updatedPolkadotAccounts,
                 log ++ [ConsoleError
                           ("Failed to reinitialize Polkadot account "
                              ++ address ++ ":")])
            | Fulfilled balanceResponse =>
                let h2 :=
                  write account
                        (with_balance
                           (Some (balance_of_response balanceResponse))
                           (h1 account))
                        h1 in
                (h2, Map_set address account updatedPolkadotAccounts, log)
            end
        | None => s
        end
    end
  else s.

(** The loop of lines 119-136 over the entries of [accounts]. *)
Definition reinitializeLoop (sdk : Sdk) (wallets : WalletExtensions)
           (st : State) : Heap * JSMap loc * list Event :=
  fold_left (reinitializeAccount sdk wallets) (accounts st)
            (heap st, [], console st).

(** [reinitializePolkadotAccountsWithBalance], lines 116-146. *)
Definition reinitializePolkadotAccountsWithBalance
           (sdk : option Sdk) (wallets : WalletExtensions) (st : State)
  : State * Promise unit :=
  match sdk with
  | None => (st, Fulfilled tt)
  | Some sdk =>
      if (Map_size (accounts st) =? 0)%nat then (st, Fulfilled tt) else
      let '(h, updatedPolkadotAccounts, log) :=
        reinitializeLoop sdk wallets st in
      (accountsEffect
         (mkState h (Map_set_all updatedPolkadotAccounts (accounts st))
                  (selectedAccountId st) (localStorage st) log),
       Fulfilled tt)
  end.

(** The loop of [setPolkadotAccountsWithBalance], lines 164-169, over the
    entries still to visit.  The objects are those the wallet returned;
    they are not yet part of the registry. *)
Fixpoint fetchBalances (sdk : Sdk) (entries : list (string * Account))
         (polkadotAccounts : JSMap Account) : Promise (JSMap Account) :=
  match entries with
  | [] => Fulfilled polkadotAccounts
  | (address, account) :: rest =>
      let account := with_signerType Polkadot account in
      match sdk address with
      | Rejected e => Rejected e
      | Fulfilled balanceResponse =>
          let account :=
            with_balance (Some (balance_of_response balanceResponse))
                         account in
          fetchBalances sdk rest (Map_set address account polkadotAccounts)
      end
  end.

(** The default value of the parameter [walletName], line 155. *)
Definition walletNameOrDefault (walletName : option string) : string :=
  match walletName with Some w => w | None => "polkadot-js" end.

Definition noAccountsMessage (walletName : string) : string :=
  "No " ++ walletName ++ " accounts found or access denied for this domain".

(** [setPolkadotAccountsWithBalance], lines 155-175.  The objects returned
    by [connectWallet] are new ones: none of them is an object of the
    registry. *)
Definition setPolkadotAccountsWithBalance
           (sdk : option Sdk) (connectWallet : WalletCenter)
           (walletName : option string) (st : State)
  : State * Promise unit :=
  let walletName := walletNameOrDefault walletName in
  match sdk with
  | None => (st, Fulfilled tt)
  | Some sdk =>
      match connectWallet walletName with
      | Rejected e => (st, Rejected e)
      | Fulfilled polkadotAccounts =>
          if (Map_size polkadotAccounts =? 0)%nat then
            (logged (Alert (noAccountsMessage walletName)) st,
             Rejected (noAccountsMessage walletName))
          else
            match fetchBalances sdk polkadotAccounts polkadotAccounts with
            | Rejected e => (st, Rejected e)
            | Fulfilled polkadotAccounts =>
                let '(h, ls) :=
                  alloc_all (fresh (accounts st)) polkadotAccounts
                            (heap st) in
                (accountsEffect
                   (mkState h (Map_of_entries (accounts st ++ ls))
                            (selectedAccountId st) (localStorage st)
                            (console st)),
                 Fulfilled tt)
            end
      end
  end.

(** The callback of [parsedAccounts.filter] at line 193 on one element:
    [Some b] when the element is kept ([b = true]) or dropped, [None]
    when destructuring it or reading [account.signerType] throws. *)
Definition notEthereumEntry (e : json) : option bool :=
  let account :=
    match e with
    | JArr (_ :: account :: _) => Some account
    | JStr (String _ (String c _)) => Some (JStr (String c EmptyString))
    | _ => None
    end in
  match account with
  | None | Some JNull => None
  | Some (JObj ms) =>
      match member "signerType" ms with
      | Some (JStr t) =>
          Some (negb (String.eqb t (SignerTypeEnum_value Ethereum)))
      | _ => Some true
      end
  | Some _ => Some true
  end.

Fixpoint filterNotEthereum (es : list json) : option (list json) :=
  match es with
  | [] => Some []
  | e :: es' =>
      match notEthereumEntry e, filterNotEthereum es' with
      | Some b, Some r => Some (if b then e :: r else r)
      | _, _ => None
      end
  end.

(** The loop of lines 181-185: every entry of the copy is visited once,
    Ethereum entries are deleted from the copy as they are met. *)
Definition deleteEthereum (h : Heap) (prevAccounts : JSMap loc)
  : JSMap loc :=
  fold_left (fun newAccounts e =>
               if isEthereum (h (snd e))
               then Map_delete (fst e) newAccounts
               else newAccounts)
            prevAccounts prevAccounts.

(** The effect on the active Ethereum address, lines 177-202.  The body
    rewrites the saved snapshot at once; the queued state update is
    rendered, and persisted by the effect of line 72, after it. *)
Definition disconnectEffect (address : option string) (st : State)
  : State :=
  if truthy address then st else
  let st1 :=
    match getItem "accounts" (localStorage st) with
    | Some saved =>
        if truthy (Some saved) then
          match JSON_parse saved with
          | Some (JArr parsedAccounts) =>
              match filterNotEthereum parsedAccounts with
              | Some filteredAccounts =>
                  stored (setItem "accounts"
                            (JSON_stringify (JArr filteredAccounts))) st
              | None =>
                  logged (ConsoleError
                    "Failed to filter Ethereum accounts from localStorage")
                    st
              end
          | _ =>
              logged (ConsoleError
                "Failed to filter Ethereum accounts from localStorage") st
          end
        else st
    | None => st
    end in
  accountsEffect
    (mkState (heap st1) (deleteEthereum (heap st1) (accounts st1))
             (selectedAccountId st1) (localStorage st1) (console st1)).
(** The state of the first render, lines 51-55: an empty map, and the
    saved index (an integer here) or [0]. *)
Definition initialState (h : Heap) (storage : Storage) (savedId : Z)
  : State :=
  mkState h [] savedId storage [].

(** *** The provider under a sequence of events

    [active] is the [address] reported by [useAccount()]. *)
Record App : Type := mkApp {
  active : option string;
  registry : State
}.

Inductive Op : Type :=
| AddressChanged (address : option string) (sdk : option Sdk)
| UpdateEthereumWallet (sdk : option Sdk)
| ConnectPolkadot (sdk : option Sdk) (connectWallet : WalletCenter)
                  (walletName : option string)
| Reinitialize (sdk : option Sdk) (wallets : WalletExtensions)
| ClearAccounts
| Select (id : Z)
| AddressChanging (address : option string)
| RefreshCompletes (address : option string) (sdk : option Sdk).

(** A change of [address] re-runs the effect of line 112 (the callback
    depends on [address]) and the effect of line 177.  In
    [AddressChanged] the refresh that the change starts completes before
    the next event.  In [AddressChanging] it is still awaiting its
    balance, and [RefreshCompletes] applies its [setAccounts] where the
    answer arrives: the request of line 102 is not cancelled when the
    address changes again. *)
Definition run (op : Op) (app : App) : App :=
  match op with
  | AddressChanged address sdk =>
      mkApp address
            (fst (updateEthereumWallet sdk address
                    (disconnectEffect address (registry app))))
  | UpdateEthereumWallet sdk =>
      mkApp (active app)
            (fst (updateEthereumWallet sdk (active app) (registry app)))
  | ConnectPolkadot sdk connectWallet walletName =>
      mkApp (active app)
            (fst (setPolkadotAccountsWithBalance sdk connectWallet
                    walletName (registry app)))
  | Reinitialize sdk wallets =>
      mkApp (active app)
            (fst (reinitializePolkadotAccountsWithBalance sdk wallets
                    (registry app)))
  | ClearAccounts => mkApp (active app) (clearAccounts (registry app))
  | Select id => mkApp (active app) (setSelectedAccountId id (registry app))
  | AddressChanging address =>
      mkApp address (disconnectEffect address (registry app))
  | RefreshCompletes address sdk =>
      mkApp (active app)
            (fst (updateEthereumWallet sdk address (registry app)))
  end.

Definition runAll (ops : list Op) (app : App) : App :=
  fold_left (fun a op => run op a) ops app.

(** [connectWallet] resolves to a [Map]. *)
Definition returnsMaps (connectWallet : WalletCenter) : Prop :=
  forall w pa, connectWallet w = Fulfilled pa -> Map_wf pa.

Definition wellFormedOp (op : Op) : Prop :=
  match op with
  | ConnectPolkadot _ connectWallet _ => returnsMaps connectWallet
  | _ => True
  end.

(** The fields of an Ethereum record as line 100 creates it. *)
Definition asCreated (a : Account) : bool :=
  String.eqb (name a) "" && String.eqb (normalizedAddress a) ""
  && match signer a with None => true | Some _ => false end
  && match sign a with None => true | Some _ => false end
  && match walletType a with None => true | Some _ => false end.

(** Every Ethereum record of the registry is as line 100 creates it. *)
Definition ethereumAsCreated (st : State) : bool :=
  forallb (fun e => negb (isEthereum (snd e)) || asCreated (snd e))
          (snapshot st).

Definition ethereumCount (st : State) : nat :=
  length (filter (fun e => isEthereum (snd e)) (snapshot st)).

(** The saved snapshot is the serialization of the whole map. *)
Definition persisted (st : State) : Prop :=
  getItem "accounts" (localStorage st)
  = Some (JSON_stringify (entries_toJSON (snapshot st))).

(** What one turn of the reinitialization loop does to the object it
    visits, as a function on the record. *)
Definition reinitializeRecord (sdk : Sdk) (wallets : WalletExtensions)
           (address : string) (r : Account) : Account :=
  if isPolkadot r then
    match wallets (walletType r) with
    | Rejected _ => r
    | Fulfilled walletAccounts =>
        match Map_get (normalizedAddress r) walletAccounts with
        | Some walletAccount =>
            match sdk address with
            | Rejected _ => with_signer (signer walletAccount) r
            | Fulfilled balanceResponse =>
                with_balance (Some (balance_of_response balanceResponse))
                             (with_signer (signer walletAccount) r)
            end
        | None => r
        end
    end
  else r.

(** The keys under which a map holds one object. *)
Definition keysAt (l : loc) (m : JSMap loc) : list string :=
  map fst (filter (fun e => Nat.eqb (snd e) l) m).

(** The balance of an object after balance requests for the given
    addresses, each successful one overwriting the field. *)
Definition refreshedBalance (sdk : Sdk) (ks : list string)
           (b : option float) : option float :=
  fold_left (fun b k =>
               match sdk k with
               | Fulfilled r => Some (balance_of_response r)
               | Rejected _ => b
               end) ks b.

Definition reinitializeFailure (address : string) : Event :=
  ConsoleError ("Failed to reinitialize Polkadot account " ++ address ++ ":").

(** Some request made for the account fails: its extension cannot be
    listed, or it is listed and the balance request rejects. *)
Definition fetchFails (sdk : Sdk) (wallets : WalletExtensions)
           (address : string) (r : Account) : bool :=
  match wallets (walletType r) with
  | Rejected _ => true
  | Fulfilled walletAccounts =>
      match Map_get (normalizedAddress r) walletAccounts with
      | Some _ =>
          match sdk address with Rejected _ => true | Fulfilled _ => false end
      | None => false
      end
  end.

(** The record an Ethereum refresh writes for an active address. *)
Definition ethereumRecord (addr : string) (b : option float) : Account :=
  mkAccount addr Ethereum "" None "" None b None.

End Provider.

(* ------------------------------------------------------------------ *)
(** ** A runtime for the executable examples *)

Module Example.
Local Open Scope string_scope.

Definition quote (s : string) : string :=
  String (ascii_of_nat 34) (s ++ String (ascii_of_nat 34) EmptyString).

(** Integral doubles print as integers; the others in binary
    scientific form (mantissa [p] exponent). *)
Definition print_number (x : float) : string :=
  match Prim2SF x with
  | SpecFloat.S754_zero _ => "0"
  | SpecFloat.S754_finite s m e =>
      (if s then "-" else "") ++
      (if (0 <=? e)%Z
       then String_of_Z (Z.pos m * 2 ^ e)
       else String_of_Z (Z.pos m) ++ "p" ++ String_of_Z e)
  | _ => "null"
  end.

Fixpoint print_json (j : json) : string :=
  match j with
  | JNull => "null"
  | JBool true => "true"
  | JBool false => "false"
  | JNum x => print_number x
  | JStr s => quote s
  | JArr items => "[" ++ String.concat "," (map print_json items) ++ "]"
  | JObj ms =>
      "{" ++ String.concat ","
               (map (fun m => let '(k, v) := m in
                              quote k ++ ":" ++ print_json v) ms) ++ "}"
  end.

(** Reads back the two documents the examples store; every other text
    is rejected. *)
Definition parse_json (s : string) : option json :=
  if String.eqb s "[]" then Some (JArr [])
  else if String.eqb s "null" then Some JNull
  else None.

Definition entries (j : json) : option (list (string * Account)) :=
  match j with
  | JArr [] | JNull => Some []
  | _ => None
  end.

#[export] Instance runtime : Runtime := {|
  JSON_stringify := print_json;
  JSON_parse := parse_json;
  entries_of_json := entries;
  Handle_toJSON := fun _ => Some (JObj []);
  SignerTypeEnum_value :=
    fun t => match t with Ethereum => "Ethereum" | Polkadot => "Polkadot" end;
  substrateOrMirrorIfEthereumNormalized := fun a => "mirror:" ++ a
|}.

Definition emptyStorage : Storage := fun _ => None.

Definition blank : Account := mkAccount "" Polkadot "" None "" None None None.

(** The state of a first render: no object, no account. *)
Definition start : State := mkState (fun _ => blank) [] 0 emptyStorage [].

Definition oneUnique : BalanceResponse :=
  mkBalanceResponse "1500000000000000000" 18.

Definition sdkOne : Sdk := fun _ => Fulfilled oneUnique.

Definition polkadotAccount (k n : string) (id : nat) : Account :=
  mkAccount k Polkadot n (Some (HandleRef id)) ("n:" ++ k) None None
            (Some "polkadot-js").

Definition twoAccounts : JSMap Account :=
  [("5Alice", polkadotAccount "5Alice" "Alice" 1);
   ("5Bob", polkadotAccount "5Bob" "Bob" 2)].

Definition fourAccounts : JSMap Account :=
  [("5Carol", polkadotAccount "5Carol" "Carol" 3);
   ("5Dave", polkadotAccount "5Dave" "Dave" 4);
   ("5Eve", polkadotAccount "5Eve" "Eve" 5);
   ("5Frank", polkadotAccount "5Frank" "Frank" 6)].

(** A registry of two Polkadot accounts. *)
Definition two : State :=
  fst (setPolkadotAccountsWithBalance (Some sdkOne)
         (fun _ => Fulfilled twoAccounts) None start).

(** Index 5 is selected, then four more accounts are connected. *)
Definition six : State :=
  fst (setPolkadotAccountsWithBalance (Some sdkOne)
         (fun _ => Fulfilled fourAccounts) None
         (setSelectedAccountId 5 two)).

(** A balance service that fails for one address. *)
Definition sdkFailingFor (k : string) : Sdk :=
  fun a => if String.eqb a k then Rejected "balance service unreachable"
           else Fulfilled oneUnique.

(** Alice's record as a reload leaves it: data, no signer. *)
Definition aliceReloaded : Account :=
  mkAccount "5Alice" Polkadot "Alice" None "n:5Alice" None (Some 1.5%float)
            (Some "polkadot-js").

Definition reloaded : State :=
  mkState (fun _ => aliceReloaded) [("5Alice", 1)] 0 emptyStorage [].

(** What the extension lists, under normalized addresses, with the
    signer objects of this session. *)
Definition listed : JSMap Account :=
  [("n:5Alice", polkadotAccount "5Alice" "Alice" 7);
   ("n:5Bob", polkadotAccount "5Bob" "Bob" 8)].

Definition extensions : WalletExtensions := fun _ => Fulfilled listed.



(** Connect address A, connect a Polkadot wallet, disconnect, connect
    address B. *)
Definition session : list Op :=
  [AddressChanged (Some "0xA") (Some sdkOne);
   ConnectPolkadot (Some sdkOne) (fun _ => Fulfilled twoAccounts) None;
   AddressChanged None (Some sdkOne);
   AddressChanged (Some "0xB") (Some sdkOne)].

(** Address A is connected and disconnected, the refresh started
    under A completes only then, and address B is connected. *)
Definition lateRefresh : list Op :=
  [AddressChanging (Some "0xA");
   AddressChanged None (Some sdkOne);
   RefreshCompletes (Some "0xA") (Some sdkOne);
   AddressChanged (Some "0xB") (Some sdkOne)].

End Example.

(* ------------------------------------------------------------------ *)
(** ** Derived readings used by the further properties *)

(** The address under which the selected record is registered: the key
    at the position [selectedAccount] reads. *)
Definition selectedAddress (st : State) : option string :=
  if (0 <=? selectedAccountId st)%Z
  then nth_error (Map_keys (accounts st)) (Z.to_nat (selectedAccountId st))
  else None.

Definition notEthereum (e : string * Account) : bool :=
  negb (isEthereum (snd e)).

(** The entries for which a turn of the reinitialization loop reports a
    failure. *)
Definition failingEntries (sdk : Sdk) (wallets : WalletExtensions)
           (st : State) : list (string * loc) :=
  filter (fun e => isPolkadot (heap st (snd e))
                   && fetchFails sdk wallets (fst e) (heap st (snd e)))
         (accounts st).

(** What the loop of lines 164-169 makes of one returned entry when its
    balance request is answered. *)
Definition connected (sdk : Sdk) (e : string * Account) : string * Account :=
  match sdk (fst e) with
  | Fulfilled r =>
      (fst e,
       with_balance (Some (balance_of_response r))
                    (with_signerType Polkadot (snd e)))
  | Rejected _ => e
  end.

(** A runtime that also reads back one saved snapshot. *)
Module Reload.
Import Example.
Local Open Scope string_scope.

(** One Ethereum record after two Polkadot records. *)
Definition mixed : State :=
  fst (updateEthereumWallet (Some sdkOne) (Some "0xA") two).

Definition savedMixed : string :=
  print_json (entries_toJSON (snapshot mixed)).

(** The entries as a reload sees them: data, no signer. *)
Definition reloadedEntries : list (string * Account) :=
  map (fun e => (fst e, with_signer None (snd e))) (snapshot mixed).

Definition parse_saved (s : string) : option json :=
  if String.eqb s savedMixed then Some (entries_toJSON (snapshot mixed))
  else parse_json s.

Definition saved_entries (j : json) : option (list (string * Account)) :=
  match j with
  | JArr (_ :: _) => Some reloadedEntries
  | _ => entries j
  end.

Definition runtime : Runtime := {|
  JSON_stringify := print_json;
  JSON_parse := parse_saved;
  entries_of_json := saved_entries;
  Handle_toJSON := fun _ => Some (JObj []);
  SignerTypeEnum_value :=
    fun t => match t with Ethereum => "Ethereum" | Polkadot => "Polkadot" end;
  substrateOrMirrorIfEthereumNormalized := fun a => "mirror:" ++ a
|}.

(** A first render over the saved snapshot, index 1 selected. *)
Definition afterReload : State :=
  mkState (fun _ => blank) [] 1 (setItem "accounts" savedMixed emptyStorage)
          [].

End Reload.

(** Every previously registered address is still at its position, and
    the selected index is the same. *)
Definition keepsPositions (st st' : State) : Prop :=
  (exists extra,
      Map_keys (accounts st') = Map_keys (accounts st) ++ extra)
  /\ selectedAccountId st' = selectedAccountId st.
(* ------------------------------------------------------------------ *)
(** ** Facts about [Map] *)

Unset Implicit Arguments.

Section JSMapFacts.
Variable V : Type.
Implicit Types (m : JSMap V) (k : string) (v : V).

Lemma Map_get_set_same : forall m k v, Map_get k (Map_set k v m) = Some v.
Proof.
  induction m as [|[k' v'] m IH]; intros k v; simpl.
  - now rewrite String.eqb_refl.
  - destruct (String.eqb k k') eqn:E; simpl.
    + now rewrite String.eqb_refl.
    + now rewrite E.
Qed.

Lemma Map_get_set_other : forall m k k' v,
  k' <> k -> Map_get k' (Map_set k v m) = Map_get k' m.
Proof.
  induction m as [|[k0 v0] m IH]; intros k k' v Hne; simpl.
  - apply String.eqb_neq in Hne. now rewrite Hne.
  - destruct (String.eqb k k0) eqn:E; simpl.
    + apply String.eqb_eq in E; subst k0.
      apply String.eqb_neq in Hne. now rewrite Hne.
    + destruct (String.eqb k' k0); auto.
Qed.

Lemma Map_keys_set_in : forall m k v,
  In k (Map_keys m) -> Map_keys (Map_set k v m) = Map_keys m.
Proof.
  induction m as [|[k0 v0] m IH]; intros k v Hin; simpl in *.
  - contradiction.
  - destruct (String.eqb k k0) eqn:E; simpl.
    + apply String.eqb_eq in E. now subst.
    + f_equal. apply IH. destruct Hin as [H|H]; auto.
      subst. now rewrite String.eqb_refl in E.
Qed.

Lemma Map_keys_set_notin : forall m k v,
  ~ In k (Map_keys m) -> Map_keys (Map_set k v m) = Map_keys m ++ [k].
Proof.
  induction m as [|[k0 v0] m IH]; intros k v Hin; simpl in *.
  - reflexivity.
  - destruct (String.eqb k k0) eqn:E; simpl.
    + apply String.eqb_eq in E. subst. tauto.
    + f_equal. apply IH. tauto.
Qed.

Lemma Map_set_wf : forall m k v, Map_wf m -> Map_wf (Map_set k v m).
Proof.
  unfold Map_wf. intros m k v Hwf.
  destruct (in_dec string_dec k (Map_keys m)) as [Hin|Hnin].
  - now rewrite Map_keys_set_in.
  - rewrite Map_keys_set_notin by assumption.
    apply NoDup_app; auto.
    + constructor; [intros []|constructor].
    + intros x Hx [Hx'|[]]. now subst.
Qed.

Lemma Map_set_all_wf : forall es m, Map_wf m -> Map_wf (Map_set_all es m).
Proof.
  unfold Map_set_all.
  induction es as [|e es IH]; intros m Hwf; simpl; auto using Map_set_wf.
Qed.

Lemma Map_of_entries_wf : forall es : list (string * V),
  Map_wf (Map_of_entries es).
Proof. intros es. apply Map_set_all_wf. constructor. Qed.

Lemma In_Map_set : forall m k v e,
  In e (Map_set k v m) -> e = (k, v) \/ In e m.
Proof.
  induction m as [|[k0 v0] m IH]; intros k v e Hin; simpl in *.
  - destruct Hin as [H|[]]; auto.
  - destruct (String.eqb k k0); simpl in Hin.
    + destruct Hin; auto.
    + destruct Hin as [H|H]; auto.
      destruct (IH _ _ _ H); auto.
Qed.

Lemma Map_get_In : forall m k v, Map_get k m = Some v -> In (k, v) m.
Proof.
  induction m as [|[k0 v0] m IH]; intros k v H; simpl in *.
  - discriminate.
  - destruct (String.eqb k k0) eqn:E.
    + apply String.eqb_eq in E. inversion H; subst. now left.
    + right. now apply IH.
Qed.

Lemma In_Map_get : forall m k v,
  Map_wf m -> In (k, v) m -> Map_get k m = Some v.
Proof.
  unfold Map_wf.
  induction m as [|[k0 v0] m IH]; intros k v Hwf Hin; simpl in *.
  - contradiction.
  - inversion Hwf as [|? ? Hnin Hwf']; subst.
    destruct Hin as [H|H].
    + inversion H; subst. now rewrite String.eqb_refl.
    + destruct (String.eqb k k0) eqn:E.
      * apply String.eqb_eq in E; subst k0. exfalso. apply Hnin.
        change k with (fst (k, v)). now apply in_map.
      * now apply IH.
Qed.

Lemma Map_set_present : forall m k v,
  Map_wf m -> In (k, v) m -> Map_set k v m = m.
Proof.
  unfold Map_wf.
  induction m as [|[k0 v0] m IH]; intros k v Hwf Hin; simpl in *.
  - contradiction.
  - inversion Hwf as [|? ? Hnin Hwf']; subst.
    destruct (String.eqb k k0) eqn:E.
    + apply String.eqb_eq in E; subst k0.
      destruct Hin as [H|H]; [now inversion H|].
      exfalso. apply Hnin. change k with (fst (k, v)). now apply in_map.
    + f_equal. apply IH; auto.
      destruct Hin as [H|H]; auto.
      inversion H; subst. now rewrite String.eqb_refl in E.
Qed.

Lemma Map_set_all_present : forall es m,
  Map_wf m -> (forall e, In e es -> In e m) -> Map_set_all es m = m.
Proof.
  unfold Map_set_all.
  induction es as [|[k v] es IH]; intros m Hwf Hsub; simpl; auto.
  rewrite Map_set_present; auto.
  - apply IH; auto. intros e He. apply Hsub. now right.
  - apply Hsub. now left.
Qed.

Lemma Map_delete_In : forall m k e, In e (Map_delete k m) -> In e m.
Proof.
  induction m as [|[k0 v0] m IH]; intros k e Hin; simpl in *; auto.
  destruct (String.eqb k k0); simpl in *; auto.
  destruct Hin; eauto.
Qed.

Lemma Map_delete_keys_notin : forall m k,
  Map_wf m -> ~ In k (Map_keys (Map_delete k m)).
Proof.
  unfold Map_wf.
  induction m as [|[k0 v0] m IH]; intros k Hwf; simpl in *; auto.
  inversion Hwf as [|? ? Hnin Hwf']; subst.
  destruct (String.eqb k k0) eqn:E; simpl.
  - apply String.eqb_eq in E. now subst.
  - intros [H|H].
    + subst. now rewrite String.eqb_refl in E.
    + now apply (IH k Hwf').
Qed.

Lemma Map_delete_wf : forall m k, Map_wf m -> Map_wf (Map_delete k m).
Proof.
  unfold Map_wf.
  induction m as [|[k0 v0] m IH]; intros k Hwf; simpl in *; auto.
  inversion Hwf as [|? ? Hnin Hwf']; subst.
  destruct (String.eqb k k0); simpl; auto.
  constructor; auto.
  intros Hin. apply Hnin.
  apply in_map_iff in Hin. destruct Hin as [e [He Hin]].
  apply Map_delete_In in Hin. subst. now apply in_map.
Qed.

Lemma Map_delete_other : forall m k e,
  In e m -> fst e <> k -> In e (Map_delete k m).
Proof.
  induction m as [|[k0 v0] m IH]; intros k e Hin Hne; simpl in *; auto.
  destruct (String.eqb k k0) eqn:E.
  - apply String.eqb_eq in E. subst.
    destruct Hin as [H|H]; auto. subst. now elim Hne.
  - destruct Hin as [H|H]; [now left|right; auto].
Qed.
Lemma In_Map_set_all : forall es m e,
  In e (Map_set_all es m) -> In e es \/ In e m.
Proof.
unfold Map_set_all.
induction es as [|[k v] es IH]; intros m e Hin; simpl in *; auto.
destruct (IH _ _ Hin) as [H|H]; auto.
destruct (In_Map_set _ _ _ _ H); subst; auto.
Qed.

Lemma Map_get_set_all_other : forall es m k,
  ~ In k (map fst es) -> Map_get k (Map_set_all es m) = Map_get k m.
Proof.
unfold Map_set_all.
induction es as [|[k0 v0] es IH]; intros m k Hnin; simpl in *; auto.
rewrite IH by tauto. apply Map_get_set_other. intros E. subst. tauto.
Qed.

Lemma Map_get_set_all_In : forall es m k v,
  NoDup (map fst es) -> In (k, v) es ->
  Map_get k (Map_set_all es m) = Some v.
Proof.
induction es as [|[k0 v0] es IH]; intros m k v Hnd Hin; simpl in *.
- contradiction.
- inversion Hnd as [|? ? Hnin Hnd']; subst.
  destruct Hin as [H|H].
  + inversion H; subst.
    change (Map_get k (Map_set_all es (Map_set k v m)) = Some v).
    rewrite Map_get_set_all_other by assumption.
    apply Map_get_set_same.
  + now apply (IH (Map_set k0 v0 m)).
Qed.

Lemma Map_set_all_app : forall es1 es2 m,
  Map_set_all (es1 ++ es2) m = Map_set_all es2 (Map_set_all es1 m).
Proof. intros. unfold Map_set_all. apply fold_left_app. Qed.

Lemma Map_set_new : forall m k v,
  ~ In k (Map_keys m) -> Map_set k v m = m ++ [(k, v)].
Proof.
induction m as [|[k0 v0] m IH]; intros k v Hnin; simpl in *; auto.
destruct (String.eqb k k0) eqn:E.
- apply String.eqb_eq in E. subst. tauto.
- f_equal. apply IH. tauto.
Qed.

Lemma Map_set_all_new : forall es m,
  NoDup (Map_keys (m ++ es)) -> Map_set_all es m = m ++ es.
Proof.
unfold Map_set_all, Map_keys.
induction es as [|[k v] es IH]; intros m Hnd; simpl.
- now rewrite app_nil_r.
- rewrite map_app in Hnd. simpl in Hnd.
  rewrite Map_set_new.
  + rewrite IH; [now rewrite <- app_assoc|].
    rewrite map_app, map_app, <- app_assoc. exact Hnd.
  + apply NoDup_remove_2 in Hnd. intros Hin. apply Hnd.
    apply in_or_app. now left.
Qed.

Lemma Map_of_entries_wf_id : forall m, Map_wf m -> Map_of_entries m = m.
Proof.
intros m Hwf. unfold Map_of_entries. now rewrite Map_set_all_new.
Qed.
Lemma Map_set_nonempty : forall m k v, Map_set k v m <> [].
Proof.
intros [|[k0 v0] m] k v; simpl; [discriminate|].
destruct (String.eqb k k0); discriminate.
Qed.

Lemma Map_set_all_nonempty : forall es m,
  es <> [] \/ m <> [] -> Map_set_all es m <> [].
Proof.
unfold Map_set_all.
induction es as [|[k v] es IH]; intros m H; simpl.
- destruct H as [H|H]; [congruence|exact H].
- apply IH. right. apply Map_set_nonempty.
Qed.
End JSMapFacts.


(* ------------------------------------------------------------------ *)
(** ** Objects and snapshots *)

Lemma write_same : forall l a h, write l a h l = a.
Proof. intros. unfold write. now rewrite Nat.eqb_refl. Qed.

Lemma write_other : forall l l' a h, l' <> l -> write l a h l' = h l'.
Proof.
intros l l' a h Hne. unfold write.
apply Nat.eqb_neq in Hne. now rewrite Hne.
Qed.

Lemma fresh_above : forall (m : JSMap loc) e, In e m -> snd e < fresh m.
Proof.
intros m e Hin. unfold fresh, Map_values.
assert (H : Forall (fun k => k <= list_max (map snd m)) (map snd m))
  by now apply list_max_le.
rewrite Forall_forall in H.
specialize (H (snd e) (in_map snd _ _ Hin)). lia.
Qed.

Lemma alloc_all_keys : forall es base h,
  map fst (snd (alloc_all base es h)) = map fst es.
Proof.
induction es as [|[k a] es IH]; intros base h; simpl; auto.
specialize (IH (S base) (write base a h)).
destruct (alloc_all (S base) es (write base a h)) as [h' ls].
simpl in *. now f_equal.
Qed.

Lemma alloc_all_locs : forall es base h e,
  In e (snd (alloc_all base es h)) -> base <= snd e.
Proof.
induction es as [|[k a] es IH]; intros base h e Hin; simpl in *.
- contradiction.
- specialize (IH (S base) (write base a h) e).
  destruct (alloc_all (S base) es (write base a h)) as [h' ls].
  simpl in *. destruct Hin as [H|H]; [subst; simpl; lia|].
  specialize (IH H). lia.
Qed.

Lemma alloc_all_old : forall es base h l,
  l < base -> fst (alloc_all base es h) l = h l.
Proof.
induction es as [|[k a] es IH]; intros base h l Hlt; simpl; auto.
specialize (IH (S base) (write base a h) l).
destruct (alloc_all (S base) es (write base a h)) as [h' ls].
simpl in *. rewrite IH by lia. apply write_other. lia.
Qed.

(** Every allocated entry refers to an object equal to the one given. *)
Lemma alloc_all_new : forall es base h k l,
  In (k, l) (snd (alloc_all base es h)) ->
  In (k, fst (alloc_all base es h) l) es.
Proof.
induction es as [|[k0 a] es IH]; intros base h k l Hin; simpl in *.
- contradiction.
- pose proof (IH (S base) (write base a h) k l) as IH'.
  pose proof (alloc_all_old es (S base) (write base a h)) as Hold.
  pose proof (alloc_all_locs es (S base) (write base a h)) as Hlocs.
  destruct (alloc_all (S base) es (write base a h)) as [h' ls].
  simpl in *. destruct Hin as [H|H].
  + inversion H; subst. left. f_equal.
    rewrite Hold by lia. now rewrite write_same.
  + right. now apply IH'.
Qed.

Lemma alloc_all_In : forall es base h k a,
  In (k, a) es ->
  exists l, In (k, l) (snd (alloc_all base es h))
            /\ fst (alloc_all base es h) l = a.
Proof.
induction es as [|[k0 a0] es IH]; intros base h k a Hin; simpl in *.
- contradiction.
- pose proof (IH (S base) (write base a0 h) k a) as IH'.
  pose proof (alloc_all_old es (S base) (write base a0 h) base) as Hold.
  destruct (alloc_all (S base) es (write base a0 h)) as [h' ls].
  simpl in *. destruct Hin as [H|H].
  + inversion H; subst. exists base. split; [now left|].
    rewrite Hold by lia. apply write_same.
  + destruct (IH' H) as [l [Hl1 Hl2]]. exists l. split; [now right|auto].
Qed.

Lemma snapshot_keys : forall st, map fst (snapshot st) = Map_keys (accounts st).
Proof.
intros st. unfold snapshot, Map_keys. rewrite map_map. reflexivity.
Qed.

Lemma snapshot_get : forall (h : Heap) (m : JSMap loc) k,
  Map_get k (map (fun e => (fst e, h (snd e))) m)
  = option_map h (Map_get k m).
Proof.
induction m as [|[k0 l0] m IH]; intros k; simpl; auto.
destruct (String.eqb k k0); auto.
Qed.

Section ProviderFacts.
Context {RT : Runtime}.

Lemma accountsEffect_heap : forall st, heap (accountsEffect st) = heap st.
Proof.
intros st. unfold accountsEffect.
now destruct (0 <? Map_size (accounts st))%nat.
Qed.

Lemma accountsEffect_accounts : forall st,
  accounts (accountsEffect st) = accounts st.
Proof.
intros st. unfold accountsEffect.
now destruct (0 <? Map_size (accounts st))%nat.
Qed.

Lemma accountsEffect_selected : forall st,
  selectedAccountId (accountsEffect st) = selectedAccountId st.
Proof.
intros st. unfold accountsEffect.
now destruct (0 <? Map_size (accounts st))%nat.
Qed.

Lemma accountsEffect_console : forall st,
  console (accountsEffect st) = console st.
Proof.
intros st. unfold accountsEffect.
now destruct (0 <? Map_size (accounts st))%nat.
Qed.

Lemma accountsEffect_snapshot : forall st,
  snapshot (accountsEffect st) = snapshot st.
Proof.
intros st. unfold snapshot.
now rewrite accountsEffect_heap, accountsEffect_accounts.
Qed.

Lemma accountsEffect_persisted : forall st,
  accounts st <> [] -> persisted (accountsEffect st).
Proof.
intros st Hne. unfold persisted.
rewrite accountsEffect_snapshot. unfold accountsEffect.
destruct (accounts st) as [|e m] eqn:E; [congruence|].
simpl. unfold getItem, setItem. reflexivity.
Qed.

Lemma accountsEffect_empty : forall st,
  accounts st = [] -> accountsEffect st = st.
Proof. intros st H. unfold accountsEffect. now rewrite H. Qed.

(* ------------------------------------------------------------------ *)
(** ** Selection *)

Lemma setSelectedAccountId_fields : forall id st,
  heap (setSelectedAccountId id st) = heap st
  /\ accounts (setSelectedAccountId id st) = accounts st
  /\ selectedAccountId (setSelectedAccountId id st) = id.
Proof.
intros id st. unfold setSelectedAccountId.
destruct (selectedAccountId st =? id)%Z; simpl; auto.
Qed.

Lemma selectedAccount_nth : forall st,
  selectedAccount st
  = if ((0 <=? selectedAccountId st)
        && (selectedAccountId st <? Z.of_nat (Map_size (accounts st))))%Z
    then nth_error (map snd (snapshot st)) (Z.to_nat (selectedAccountId st))
    else None.
Proof.
intros st. unfold selectedAccount, snapshot, Map_values, Map_size.
rewrite !map_map. simpl.
destruct (0 <=? selectedAccountId st)%Z eqn:E0; simpl; auto.
destruct (selectedAccountId st <? Z.of_nat (length (accounts st)))%Z eqn:E1;
  auto.
apply nth_error_None. rewrite length_map.
apply Z.ltb_ge in E1. apply Z.leb_le in E0. lia.
Qed.

(** C6.  [setSelectedAccountId] stores any integer as it is, and
    [selectedAccount] is the record at that position of the insertion
    order of [accounts], or [undefined] when the position is out of range:
    index 5 over 2 accounts selects nothing, and the same stored index
    selects a record once the map has 6 entries. *)
Theorem selection_is_positional : forall (st : State) (id : Z),
  selectedAccountId (setSelectedAccountId id st) = id
  /\ snapshot (setSelectedAccountId id st) = snapshot st
  /\ ((0 <= id < Z.of_nat (Map_size (accounts st)))%Z ->
      exists a,
        nth_error (map snd (snapshot st)) (Z.to_nat id) = Some a
        /\ selectedAccount (setSelectedAccountId id st) = Some a)
  /\ ((id < 0 \/ Z.of_nat (Map_size (accounts st)) <= id)%Z ->
      selectedAccount (setSelectedAccountId id st) = None)
  /\ (Map_size (accounts st) = 2 ->
      selectedAccount (setSelectedAccountId 5 st) = None)
  /\ (forall st' : State,
        Map_size (accounts st') = 6 ->
        selectedAccountId st' = selectedAccountId (setSelectedAccountId 5 st) ->
        exists a, selectedAccount st' = Some a).
Proof.
intros st id.
destruct (setSelectedAccountId_fields id st) as [Hh [Ha Hi]].
assert (Hsnap : snapshot (setSelectedAccountId id st) = snapshot st)
  by (unfold snapshot; now rewrite Hh, Ha).
repeat split; auto.
- intros [H0 H1]. rewrite selectedAccount_nth, Hi, Ha, Hsnap.
  apply Z.leb_le in H0 as H0'. apply Z.ltb_lt in H1 as H1'.
  rewrite H0', H1'. simpl.
  destruct (nth_error (map snd (snapshot st)) (Z.to_nat id)) as [a|] eqn:E.
  + now exists a.
  + apply nth_error_None in E. rewrite length_map in E.
    unfold snapshot in E. rewrite length_map in E.
    unfold Map_size in H1. lia.
- intros H. rewrite selectedAccount_nth, Hi, Ha.
  destruct H as [H|H].
  + apply Z.leb_gt in H. now rewrite H.
  + apply Z.ltb_ge in H. rewrite H. now rewrite andb_false_r.
- intros H2. rewrite selectedAccount_nth.
  destruct (setSelectedAccountId_fields 5 st) as [_ [Ha5 Hi5]].
  rewrite Hi5, Ha5, H2. reflexivity.
- intros st' H6 Hid.
  destruct (setSelectedAccountId_fields 5 st) as [_ [_ Hi5]].
  rewrite Hi5 in Hid. rewrite selectedAccount_nth, Hid, H6. simpl.
  destruct (nth_error (map snd (snapshot st')) 5) as [a|] eqn:E.
  + now exists a.
  + apply nth_error_None in E. rewrite length_map in E.
    unfold snapshot in E. rewrite length_map in E.
    unfold Map_size in H6. lia.
Qed.

(* ------------------------------------------------------------------ *)
(** ** Restoring the saved snapshot *)

(** C8, as the code has it.  On the first render, a saved snapshot that
    is a non-empty string [JSON.parse] rejects leaves the map empty and
    logs one error; nothing is thrown (the effect has no failing result)
    and storage is untouched.  The empty string, which [JSON.parse] also
    rejects, is taken for a missing snapshot: the map is empty, the
    selected index is reset to [0], and nothing is logged. *)
Theorem restore_unparsable_snapshot :
  forall (h : Heap) (storage : Storage) (id : Z) (s : string),
    getItem "accounts" storage = Some s ->
    JSON_parse s = None ->
    let st := restoreEffect (initialState h storage id) in
    accounts st = [] /\ snapshot st = []
    /\ (s <> "" ->
        console st
        = [ConsoleError "Failed to restore accounts from localStorage"]
        /\ selectedAccountId st = id
        /\ localStorage st = storage)
    /\ (s = "" -> console st = [] /\ selectedAccountId st = 0%Z).
Proof.
intros h storage id s Hget Hparse st. subst st.
unfold restoreEffect, initialState. simpl. rewrite Hget.
destruct s as [|c s].
- simpl. rewrite accountsEffect_empty by reflexivity.
  destruct (id =? 0)%Z; simpl; repeat split; auto; congruence.
- simpl. rewrite Hparse. simpl. repeat split; auto; congruence.
Qed.

(* ------------------------------------------------------------------ *)
(** ** Connecting a Polkadot wallet *)

Lemma fetchBalances_rejects : forall (sdk : Sdk) es acc k a e,
  In (k, a) es -> sdk k = Rejected e ->
  exists e', fetchBalances sdk es acc = Rejected e'.
Proof.
induction es as [|[k0 a0] es IH]; intros acc k a e Hin Hrej; simpl in *.
- contradiction.
- destruct (sdk k0) as [r|e0] eqn:E0.
  + destruct Hin as [H|H].
    * inversion H; subst. congruence.
    * eapply IH; eauto.
  + now exists e0.
Qed.

(** C10.  When the wallet returns at least one account and the balance
    request of any of them rejects, [setPolkadotAccountsWithBalance]
    rejects and the state is the one it started from: no account of that
    wallet is merged. *)
Theorem connect_is_all_or_nothing :
  forall (sdk : Sdk) (connectWallet : WalletCenter)
         (walletName : option string) (st : State)
         (polkadotAccounts : JSMap Account) (k : string) (a : Account)
         (e : string),
    connectWallet (walletNameOrDefault walletName)
    = Fulfilled polkadotAccounts ->
    In (k, a) polkadotAccounts ->
    sdk k = Rejected e ->
    exists e',
      setPolkadotAccountsWithBalance (Some sdk) connectWallet walletName st
      = (st, Rejected e').
Proof.
intros sdk cw w st pa k a e Hcw Hin Hrej.
unfold setPolkadotAccountsWithBalance. rewrite Hcw.
destruct pa as [|p pa']; [contradiction|]. simpl Nat.eqb. cbv iota.
destruct (fetchBalances_rejects sdk (p :: pa') (p :: pa') k a e Hin Hrej)
  as [e' He'].
rewrite He'. now exists e'.
Qed.

(* ------------------------------------------------------------------ *)
(** ** Reinitialization: what the loop does to each object *)

Lemma reinitializeAccount_heap :
  forall (sdk : Sdk) (wallets : WalletExtensions) h u log k l l',
    fst (fst (reinitializeAccount sdk wallets (h, u, log) (k, l))) l'
    = if Nat.eqb l' l then reinitializeRecord sdk wallets k (h l) else h l'.
Proof.
intros sdk wallets h u log k l l'.
unfold reinitializeAccount, reinitializeRecord.
destruct (isPolkadot (h l)); simpl.
2: now destruct (Nat.eqb l' l) eqn:E; [apply Nat.eqb_eq in E; subst|].
destruct (wallets (walletType (h l))) as [wa|e]; simpl.
2: now destruct (Nat.eqb l' l) eqn:E; [apply Nat.eqb_eq in E; subst|].
destruct (Map_get (normalizedAddress (h l)) wa) as [w|]; simpl.
2: now destruct (Nat.eqb l' l) eqn:E; [apply Nat.eqb_eq in E; subst|].
destruct (sdk k) as [r|e]; simpl; unfold write;
  rewrite ?Nat.eqb_refl; destruct (Nat.eqb l' l); reflexivity.
Qed.

Lemma reinitializeAccount_updated :
  forall (sdk : Sdk) (wallets : WalletExtensions) h u log e e',
    In e' (snd (fst (reinitializeAccount sdk wallets (h, u, log) e))) ->
    e' = e \/ In e' u.
Proof.
intros sdk wallets h u log [k l] e'.
unfold reinitializeAccount.
destruct (isPolkadot (h l)); simpl; auto.
destruct (wallets (walletType (h l))) as [wa|err]; simpl; auto.
destruct (Map_get (normalizedAddress (h l)) wa) as [w|]; simpl; auto.
destruct (sdk k) as [r|err]; simpl; auto.
apply In_Map_set.
Qed.

Lemma reinitializeAccount_console :
  forall (sdk : Sdk) (wallets : WalletExtensions) h u log e ev,
    In ev log ->
    In ev (snd (reinitializeAccount sdk wallets (h, u, log) e)).
Proof.
intros sdk wallets h u log [k l] ev Hin.
unfold reinitializeAccount.
destruct (isPolkadot (h l)); simpl; auto.
destruct (wallets (walletType (h l))) as [wa|err]; simpl.
2: apply in_or_app; now left.
destruct (Map_get (normalizedAddress (h l)) wa) as [w|]; simpl; auto.
destruct (sdk k) as [r|err]; simpl; auto.
apply in_or_app; now left.
Qed.

Lemma reinitialize_loop_heap :
  forall (sdk : Sdk) (wallets : WalletExtensions) es h u log l,
    fst (fst (fold_left (reinitializeAccount sdk wallets) es (h, u, log))) l
    = fold_left (fun r k => reinitializeRecord sdk wallets k r)
                (keysAt l es) (h l).
Proof.
induction es as [|[k l0] es IH]; intros h u log l; cbn [fold_left]; auto.
pose proof (reinitializeAccount_heap sdk wallets h u log k l0 l) as Hstep.
destruct (reinitializeAccount sdk wallets (h, u, log) (k, l0))
  as [[h1 u1] log1].
simpl in Hstep. rewrite IH, Hstep.
unfold keysAt. simpl. rewrite (Nat.eqb_sym l0 l).
destruct (Nat.eqb l l0) eqn:E; simpl; auto.
apply Nat.eqb_eq in E. now subst.
Qed.

Lemma reinitialize_loop_updated :
  forall (sdk : Sdk) (wallets : WalletExtensions) es h u log e,
    In e (snd (fst (fold_left (reinitializeAccount sdk wallets) es
                              (h, u, log)))) ->
    In e u \/ In e es.
Proof.
induction es as [|e0 es IH]; intros h u log e Hin; cbn [fold_left] in *;
  auto.
pose proof (reinitializeAccount_updated sdk wallets h u log e0) as Hstep.
destruct (reinitializeAccount sdk wallets (h, u, log) e0) as [[h1 u1] log1].
simpl in Hstep. destruct (IH _ _ _ _ Hin) as [H|H].
- destruct (Hstep _ H); subst; [right; now left | now left].
- right. now right.
Qed.

Lemma reinitialize_loop_console :
  forall (sdk : Sdk) (wallets : WalletExtensions) es h u log ev,
    In ev log ->
    In ev (snd (fold_left (reinitializeAccount sdk wallets) es (h, u, log))).
Proof.
induction es as [|e0 es IH]; intros h u log ev Hin; cbn [fold_left] in *;
  auto.
pose proof (reinitializeAccount_console sdk wallets h u log e0 ev Hin)
  as Hstep.
destruct (reinitializeAccount sdk wallets (h, u, log) e0) as [[h1 u1] log1].
now apply IH.
Qed.

(** The fields that decide what a turn does are never assigned. *)
Lemma reinitializeRecord_frame :
  forall (sdk : Sdk) (wallets : WalletExtensions) k r,
    let r' := reinitializeRecord sdk wallets k r in
    address r' = address r /\ signerType r' = signerType r
    /\ name r' = name r /\ normalizedAddress r' = normalizedAddress r
    /\ sign r' = sign r /\ walletType r' = walletType r.
Proof.
intros sdk wallets k r. unfold reinitializeRecord.
destruct (isPolkadot r); simpl; auto 10.
destruct (wallets (walletType r)) as [wa|e]; simpl; auto 10.
destruct (Map_get (normalizedAddress r) wa) as [w|]; simpl; auto 10.
destruct (sdk k); simpl; auto 10.
Qed.

Lemma reinitializeRecords_frame :
  forall (sdk : Sdk) (wallets : WalletExtensions) ks r,
    let r' := fold_left (fun r k => reinitializeRecord sdk wallets k r) ks r in
    address r' = address r /\ signerType r' = signerType r
    /\ name r' = name r /\ normalizedAddress r' = normalizedAddress r
    /\ sign r' = sign r /\ walletType r' = walletType r.
Proof.
induction ks as [|k ks IH]; intros r; simpl; auto 10.
destruct (IH (reinitializeRecord sdk wallets k r)) as (A & B & C & D & E & F).
destruct (reinitializeRecord_frame sdk wallets k r)
  as (A' & B' & C' & D' & E' & F').
simpl in *. repeat split; congruence.
Qed.

Lemma keysAt_unique : forall (m : JSMap loc) k l,
  NoDup (Map_values m) -> In (k, l) m -> keysAt l m = [k].
Proof.
unfold Map_values, keysAt.
induction m as [|[k0 l0] m IH]; intros k l Hnd Hin; simpl in *.
- contradiction.
- inversion Hnd as [|? ? Hnin Hnd']; subst.
  destruct Hin as [H|H].
  + inversion H; subst. rewrite Nat.eqb_refl. simpl. f_equal.
    destruct (filter (fun e => Nat.eqb (snd e) l) m) as [|e f] eqn:E; auto.
    exfalso. apply Hnin.
    assert (He : In e (filter (fun e => Nat.eqb (snd e) l) m))
      by (rewrite E; now left).
    apply filter_In in He. destruct He as [He1 He2].
    apply Nat.eqb_eq in He2. subst l. now apply in_map.
  + destruct (Nat.eqb l0 l) eqn:E.
    * apply Nat.eqb_eq in E. subst l0. exfalso. apply Hnin.
      change l with (snd (k, l)). now apply in_map.
    * now apply IH.
Qed.

Lemma refreshedBalance_cases : forall (sdk : Sdk) ks,
  (forall b, refreshedBalance sdk ks b = b)
  \/ (exists v, forall b, refreshedBalance sdk ks b = v).
Proof.
unfold refreshedBalance.
induction ks as [|k ks IH]; simpl; auto.
destruct IH as [Hid|[v Hv]].
- destruct (sdk k) as [r|e].
  + right. exists (Some (balance_of_response r)). intros b. apply Hid.
  + left. intros b. apply Hid.
- right. exists v. intros b. apply Hv.
Qed.

Lemma refreshedBalance_idempotent : forall (sdk : Sdk) ks b,
  refreshedBalance sdk ks (refreshedBalance sdk ks b)
  = refreshedBalance sdk ks b.
Proof.
intros sdk ks b.
destruct (refreshedBalance_cases sdk ks) as [Hid|[v Hv]].
- now rewrite !Hid.
- now rewrite !Hv.
Qed.

(** The record one object ends with, whatever the number of keys that
    lead to it: untouched unless its extension lists it; otherwise the
    signer of the listing and the last balance that could be fetched. *)
Lemma reinitializeRecords_shape :
  forall (sdk : Sdk) (wallets : WalletExtensions) ks r,
    fold_left (fun r k => reinitializeRecord sdk wallets k r) ks r
    = if isPolkadot r then
        match wallets (walletType r) with
        | Rejected _ => r
        | Fulfilled wa =>
            match Map_get (normalizedAddress r) wa with
            | None => r
            | Some w =>
                match ks with
                | [] => r
                | _ :: _ =>
                    with_balance (refreshedBalance sdk ks (balance r))
                                 (with_signer (signer w) r)
                end
            end
        end
      else r.
Proof.
induction ks as [|k ks IH]; intros r.
- simpl. destruct (isPolkadot r); auto.
  destruct (wallets (walletType r)) as [wa|e]; auto.
  now destruct (Map_get (normalizedAddress r) wa).
- cbn [fold_left]. rewrite IH.
  destruct (reinitializeRecord_frame sdk wallets k r)
    as (_ & HT & _ & HN & _ & HW).
  simpl in HT, HN, HW. unfold isPolkadot at 1. rewrite HT, HN, HW.
  unfold isPolkadot.
  destruct (SignerTypeEnum_eqb (signerType r) Polkadot) eqn:EP.
  2: unfold reinitializeRecord, isPolkadot; now rewrite EP.
  destruct (wallets (walletType r)) as [wa|e] eqn:EW.
  2: unfold reinitializeRecord, isPolkadot; now rewrite EP, EW.
  destruct (Map_get (normalizedAddress r) wa) as [w|] eqn:EM.
  2: unfold reinitializeRecord, isPolkadot; now rewrite EP, EW, EM.
  unfold reinitializeRecord, isPolkadot. rewrite EP, EW, EM.
  unfold refreshedBalance. cbn [fold_left].
  destruct (sdk k) as [resp|e]; destruct ks; destruct r; reflexivity.
Qed.

Lemma reinitializeRecords_idempotent :
  forall (sdk : Sdk) (wallets : WalletExtensions) ks r,
    let F := fold_left (fun r k => reinitializeRecord sdk wallets k r) ks in
    F (F r) = F r.
Proof.
intros sdk wallets ks r F. subst F.
rewrite (reinitializeRecords_shape sdk wallets ks
           (fold_left (fun r k => reinitializeRecord sdk wallets k r) ks r)).
destruct (reinitializeRecords_frame sdk wallets ks r)
  as (_ & HT & _ & HN & _ & HW).
simpl in HT, HN, HW. unfold isPolkadot. rewrite HT, HN, HW.
rewrite (reinitializeRecords_shape sdk wallets ks r).
unfold isPolkadot.
destruct (SignerTypeEnum_eqb (signerType r) Polkadot); auto.
destruct (wallets (walletType r)) as [wa|e]; auto.
destruct (Map_get (normalizedAddress r) wa) as [w|]; auto.
destruct ks as [|k ks]; auto.
unfold with_balance, with_signer. destruct r.
cbn [address signerType name signer normalizedAddress sign balance
     walletType].
now rewrite refreshedBalance_idempotent.
Qed.

(** The state [reinitializePolkadotAccountsWithBalance] ends in when it
    runs its loop. *)
Lemma reinitialize_result :
  forall (sdk : Sdk) (wallets : WalletExtensions) (st : State),
    accounts st <> [] -> Map_wf (accounts st) ->
    exists h log,
      reinitializePolkadotAccountsWithBalance (Some sdk) wallets st
      = (accountsEffect
           (mkState h (accounts st) (selectedAccountId st)
                    (localStorage st) log), Fulfilled tt)
      /\ (forall l,
            h l = fold_left (fun r k => reinitializeRecord sdk wallets k r)
                            (keysAt l (accounts st)) (heap st l))
      /\ h = fst (fst (reinitializeLoop sdk wallets st))
      /\ log = snd (reinitializeLoop sdk wallets st).
Proof.
intros sdk wallets st Hne Hwf.
unfold reinitializePolkadotAccountsWithBalance.
destruct (Map_size (accounts st) =? 0)%nat eqn:Esz.
{ apply Nat.eqb_eq in Esz. unfold Map_size in Esz.
  apply length_zero_iff_nil in Esz. congruence. }
assert (Hheap : forall l,
          fst (fst (reinitializeLoop sdk wallets st)) l
          = fold_left (fun r k => reinitializeRecord sdk wallets k r)
                      (keysAt l (accounts st)) (heap st l))
  by (intros l; apply reinitialize_loop_heap).
assert (Hupd : forall e,
          In e (snd (fst (reinitializeLoop sdk wallets st))) ->
          In e (accounts st)).
{ intros e He.
  destruct (reinitialize_loop_updated sdk wallets (accounts st) (heap st) []
              (console st) e He) as [[]|H]; auto. }
destruct (reinitializeLoop sdk wallets st) as [[h u] log].
simpl in Hheap, Hupd.
exists h, log. repeat split; auto.
now rewrite (Map_set_all_present loc u (accounts st) Hwf Hupd).
Qed.

Lemma accountsEffect_storage : forall st k,
  getItem k (localStorage (accountsEffect st))
  = if (0 <? Map_size (accounts st))%nat && String.eqb k "accounts"
    then Some (JSON_stringify (entries_toJSON (snapshot st)))
    else getItem k (localStorage st).
Proof.
intros st k. unfold accountsEffect.
destruct (0 <? Map_size (accounts st))%nat; simpl; auto.
Qed.

Lemma snapshot_ext : forall st st',
  accounts st' = accounts st ->
  (forall l, heap st' l = heap st l) ->
  snapshot st' = snapshot st.
Proof.
intros st st' Ha Hh. unfold snapshot. rewrite Ha.
apply map_ext. intros e. now rewrite Hh.
Qed.

Lemma selectedAccount_ext : forall st st',
  accounts st' = accounts st ->
  (forall l, heap st' l = heap st l) ->
  selectedAccountId st' = selectedAccountId st ->
  selectedAccount st' = selectedAccount st.
Proof.
intros st st' Ha Hh Hi. unfold selectedAccount. rewrite Ha, Hi.
destruct (0 <=? selectedAccountId st)%Z; auto.
f_equal. apply map_ext. intros l. apply Hh.
Qed.

Lemma reinitialize_nothing_registered :
  forall (sdk : option Sdk) (wallets : WalletExtensions) (st : State),
    accounts st = [] ->
    reinitializePolkadotAccountsWithBalance sdk wallets st
    = (st, Fulfilled tt).
Proof.
intros sdk wallets st H. unfold reinitializePolkadotAccountsWithBalance.
rewrite H. now destruct sdk.
Qed.

(** C7.  With the same answers from the wallet extensions and from the
    balance service, a second run of
    [reinitializePolkadotAccountsWithBalance] changes nothing a reader of
    the context or of the storage can see: same entries, same records,
    same selection, same saved snapshot. *)
Theorem reinitialize_twice_is_once :
  forall (sdk : option Sdk) (wallets : WalletExtensions) (st : State),
    Map_wf (accounts st) ->
    let st1 := fst (reinitializePolkadotAccountsWithBalance sdk wallets st) in
    let st2 := fst (reinitializePolkadotAccountsWithBalance sdk wallets st1) in
    snapshot st2 = snapshot st1
    /\ accounts st2 = accounts st1
    /\ selectedAccountId st2 = selectedAccountId st1
    /\ selectedAccount st2 = selectedAccount st1
    /\ (forall l, heap st2 l = heap st1 l)
    /\ (forall k, getItem k (localStorage st2) = getItem k (localStorage st1)).
Proof.
intros sdk wallets st Hwf st1 st2.
assert (Hmain : accounts st2 = accounts st1
                /\ selectedAccountId st2 = selectedAccountId st1
                /\ (forall l, heap st2 l = heap st1 l)
                /\ (forall k, getItem k (localStorage st2)
                              = getItem k (localStorage st1))).
{ subst st1 st2. destruct sdk as [sdk|]; [|simpl; auto].
  destruct (accounts st) as [|e0 m] eqn:Eacc.
  { rewrite (reinitialize_nothing_registered (Some sdk) wallets st Eacc).
    cbn [fst].
    rewrite (reinitialize_nothing_registered (Some sdk) wallets st Eacc).
    cbn [fst]. auto. }
  assert (Hne : accounts st <> []) by congruence.
  rewrite <- Eacc in Hwf.
  destruct (reinitialize_result sdk wallets st Hne Hwf)
    as (h1 & log1 & E1 & Hh1 & _).
  rewrite E1. cbn [fst].
  set (s1 := accountsEffect
               (mkState h1 (accounts st) (selectedAccountId st)
                        (localStorage st) log1)).
  assert (Ha1 : accounts s1 = accounts st)
    by (unfold s1; now rewrite accountsEffect_accounts).
  assert (Hne1 : accounts s1 <> []) by congruence.
  assert (Hwf1 : Map_wf (accounts s1)) by now rewrite Ha1.
  destruct (reinitialize_result sdk wallets s1 Hne1 Hwf1)
    as (h2 & log2 & E2 & Hh2 & _).
  rewrite E2. cbn [fst].
  assert (Hheap : forall l, h2 l = heap s1 l).
  { intros l. rewrite Hh2, Ha1.
    unfold s1. rewrite accountsEffect_heap. cbn [heap].
    rewrite Hh1. apply reinitializeRecords_idempotent. }
  rewrite !accountsEffect_accounts, !accountsEffect_selected.
  cbn [accounts selectedAccountId].
  split; [reflexivity|]. split; [reflexivity|].
  split.
  - intros l. rewrite accountsEffect_heap. cbn [heap]. apply Hheap.
  - intros k. rewrite accountsEffect_storage. cbn [accounts localStorage].
    destruct ((0 <? Map_size (accounts s1))%nat && String.eqb k "accounts")
      eqn:Ek; auto.
    apply andb_prop in Ek. destruct Ek as [Ek1 Ek2].
    pose proof (accountsEffect_storage
                  (mkState h1 (accounts st) (selectedAccountId st)
                           (localStorage st) log1) k) as Hs1.
    fold s1 in Hs1. cbn [accounts] in Hs1.
    rewrite Ha1 in Ek1. rewrite Ek1, Ek2 in Hs1. simpl in Hs1.
    rewrite Hs1. do 3 f_equal.
    unfold snapshot. cbn [heap accounts]. rewrite Ha1.
    apply map_ext. intros e. f_equal.
    rewrite Hheap. unfold s1. now rewrite accountsEffect_heap. }
destruct Hmain as (Ha & Hi & Hh & Hs).
repeat split; auto using snapshot_ext, selectedAccount_ext.
Qed.

(* ------------------------------------------------------------------ *)
(** ** Reinitialization: failures of single accounts *)

Lemma reinitialize_never_rejects :
  forall (sdk : option Sdk) (wallets : WalletExtensions) (st : State),
    snd (reinitializePolkadotAccountsWithBalance sdk wallets st)
    = Fulfilled tt.
Proof.
intros sdk wallets st. unfold reinitializePolkadotAccountsWithBalance.
destruct sdk as [sdk|]; auto.
destruct (Map_size (accounts st) =? 0)%nat; auto.
now destruct (reinitializeLoop sdk wallets st) as [[h u] log].
Qed.

Lemma fetchFails_frame :
  forall (sdk : Sdk) (wallets : WalletExtensions) k r r',
    walletType r' = walletType r ->
    normalizedAddress r' = normalizedAddress r ->
    fetchFails sdk wallets k r' = fetchFails sdk wallets k r.
Proof.
intros sdk wallets k r r' HW HN. unfold fetchFails. now rewrite HW, HN.
Qed.

Lemma reinitializeAccount_logs :
  forall (sdk : Sdk) (wallets : WalletExtensions) h u log k l,
    isPolkadot (h l) = true ->
    fetchFails sdk wallets k (h l) = true ->
    In (reinitializeFailure k)
       (snd (reinitializeAccount sdk wallets (h, u, log) (k, l))).
Proof.
intros sdk wallets h u log k l HP HF.
unfold reinitializeAccount, fetchFails in *. rewrite HP.
destruct (wallets (walletType (h l))) as [wa|e]; simpl.
- destruct (Map_get (normalizedAddress (h l)) wa) as [w|]; [|discriminate].
  destruct (sdk k) as [r|e]; [discriminate|]. simpl.
  apply in_or_app. right. now left.
- apply in_or_app. right. now left.
Qed.

Lemma reinitialize_loop_logs :
  forall (sdk : Sdk) (wallets : WalletExtensions) es h u log k l,
    In (k, l) es ->
    isPolkadot (h l) = true ->
    fetchFails sdk wallets k (h l) = true ->
    In (reinitializeFailure k)
       (snd (fold_left (reinitializeAccount sdk wallets) es (h, u, log))).
Proof.
induction es as [|[k0 l0] es IH]; intros h u log k l Hin HP HF;
  cbn [fold_left].
- contradiction.
- destruct Hin as [Heq|Hin].
  + inversion Heq; subst k0 l0.
    remember (reinitializeAccount sdk wallets (h, u, log) (k, l)) as s1
      eqn:Es1.
    assert (Hlog : In (reinitializeFailure k) (snd s1))
      by (subst s1; now apply reinitializeAccount_logs).
    destruct s1 as [[h1 u1] log1].
    now apply reinitialize_loop_console.
  + remember (reinitializeAccount sdk wallets (h, u, log) (k0, l0)) as s1
      eqn:Es1.
    assert (Hstep : fst (fst s1) l
                    = if Nat.eqb l l0
                      then reinitializeRecord sdk wallets k0 (h l0)
                      else h l)
      by (subst s1; apply reinitializeAccount_heap).
    destruct s1 as [[h1 u1] log1].
    cbn [fst] in Hstep.
    assert (Hsame : signerType (h1 l) = signerType (h l)
                    /\ walletType (h1 l) = walletType (h l)
                    /\ normalizedAddress (h1 l) = normalizedAddress (h l)).
    { rewrite Hstep. destruct (Nat.eqb l l0) eqn:E; auto.
      apply Nat.eqb_eq in E. subst l0.
      destruct (reinitializeRecord_frame sdk wallets k0 (h l))
        as (_ & HT & _ & HN & _ & HW).
      auto. }
    destruct Hsame as (HT & HW & HN).
    apply (IH h1 u1 log1 k l Hin).
    * unfold isPolkadot in *. now rewrite HT.
    * now rewrite (fetchFails_frame sdk wallets k (h l) (h1 l) HW HN).
Qed.

Lemma reinitialize_entry :
  forall (sdk : Sdk) (wallets : WalletExtensions) (st : State) k l,
    Map_wf (accounts st) -> NoDup (Map_values (accounts st)) ->
    In (k, l) (accounts st) ->
    heap (fst (reinitializePolkadotAccountsWithBalance (Some sdk) wallets st))
         l
    = reinitializeRecord sdk wallets k (heap st l).
Proof.
intros sdk wallets st k l Hwf Hnd Hin.
assert (Hne : accounts st <> []) by (intros E; now rewrite E in Hin).
destruct (reinitialize_result sdk wallets st Hne Hwf)
  as (h & log & E & Hh & _).
rewrite E. cbn [fst]. rewrite accountsEffect_heap. cbn [heap].
rewrite Hh, (keysAt_unique (accounts st) k l Hnd Hin). reflexivity.
Qed.

Lemma reinitialize_logs :
  forall (sdk : Sdk) (wallets : WalletExtensions) (st : State) k l,
    Map_wf (accounts st) ->
    In (k, l) (accounts st) ->
    isPolkadot (heap st l) = true ->
    fetchFails sdk wallets k (heap st l) = true ->
    In (reinitializeFailure k)
       (console (fst (reinitializePolkadotAccountsWithBalance
                        (Some sdk) wallets st))).
Proof.
intros sdk wallets st k l Hwf Hin HP HF.
assert (Hne : accounts st <> []) by (intros E; now rewrite E in Hin).
destruct (reinitialize_result sdk wallets st Hne Hwf)
  as (h & log & E & _ & _ & Hlog).
rewrite E. cbn [fst]. rewrite accountsEffect_console. cbn [console].
rewrite Hlog. now apply reinitialize_loop_logs with (l := l).
Qed.

(** C3, as the code has it.  [reinitializePolkadotAccountsWithBalance]
    never rejects; an account for which a request fails is reported on
    the console, and every other registered account is still refreshed
    from its own answers.  [setPolkadotAccountsWithBalance] has no such
    isolation: one rejected balance request rejects the whole call. *)
Theorem reinitialize_isolates_failures :
  forall (sdk : Sdk) (wallets : WalletExtensions) (st : State),
    Map_wf (accounts st) -> NoDup (Map_values (accounts st)) ->
    let res := reinitializePolkadotAccountsWithBalance (Some sdk) wallets st in
    snd res = Fulfilled tt
    /\ (forall k l,
          In (k, l) (accounts st) -> isPolkadot (heap st l) = true ->
          (fetchFails sdk wallets k (heap st l) = true ->
           In (reinitializeFailure k) (console (fst res)))
          /\ (forall wa w r,
                wallets (walletType (heap st l)) = Fulfilled wa ->
                Map_get (normalizedAddress (heap st l)) wa = Some w ->
                sdk k = Fulfilled r ->
                heap (fst res) l
                = with_balance (Some (balance_of_response r))
                               (with_signer (signer w) (heap st l))))
    /\ (forall connectWallet walletName polkadotAccounts k a e,
          connectWallet (walletNameOrDefault walletName)
          = Fulfilled polkadotAccounts ->
          In (k, a) polkadotAccounts ->
          sdk k = Rejected e ->
          exists e',
            snd (setPolkadotAccountsWithBalance (Some sdk) connectWallet
                   walletName st)
            = Rejected e').
Proof.
intros sdk wallets st Hwf Hnd res. subst res.
split; [apply reinitialize_never_rejects|]. split.
- intros k l Hin HP. split.
  + intros HF. now apply reinitialize_logs with (l := l).
  + intros wa w r HW HM HS.
    rewrite (reinitialize_entry sdk wallets st k l Hwf Hnd Hin).
    unfold reinitializeRecord. now rewrite HP, HW, HM, HS.
- intros cw w pa k a e Hcw Hin Hrej.
  unfold setPolkadotAccountsWithBalance. rewrite Hcw.
  destruct pa as [|p pa']; [contradiction|]. simpl Nat.eqb. cbv iota.
  destruct (fetchBalances_rejects sdk (p :: pa') (p :: pa') k a e Hin Hrej)
    as [e' He'].
  rewrite He'. now exists e'.
Qed.

(** C4, where the code departs from it.  When the extension lists the
    account and the balance request then rejects, the record does not
    keep its prior state: the signer read from the listing has already
    been assigned to the registered object; only the balance is the old
    one.  When the extension itself cannot be listed the record is
    unchanged. *)
Theorem reinitialize_failed_balance_keeps_new_signer :
  forall (sdk : Sdk) (wallets : WalletExtensions) (st : State) k l,
    Map_wf (accounts st) -> NoDup (Map_values (accounts st)) ->
    In (k, l) (accounts st) -> isPolkadot (heap st l) = true ->
    let st' :=
      fst (reinitializePolkadotAccountsWithBalance (Some sdk) wallets st) in
    (forall e, wallets (walletType (heap st l)) = Rejected e ->
               heap st' l = heap st l)
    /\ (forall wa w e,
          wallets (walletType (heap st l)) = Fulfilled wa ->
          Map_get (normalizedAddress (heap st l)) wa = Some w ->
          sdk k = Rejected e ->
          heap st' l = with_signer (signer w) (heap st l)
          /\ Map_get k (snapshot st')
             = Some (with_signer (signer w) (heap st l))).
Proof.
intros sdk wallets st k l Hwf Hnd Hin HP st'. subst st'.
rewrite (reinitialize_entry sdk wallets st k l Hwf Hnd Hin).
unfold reinitializeRecord. rewrite HP. split.
- intros e HW. now rewrite HW.
- intros wa w e HW HM HS. rewrite HW, HM, HS. split; auto.
  unfold snapshot. rewrite snapshot_get.
  assert (Hne : accounts st <> []) by (intros E; now rewrite E in Hin).
  destruct (reinitialize_result sdk wallets st Hne Hwf)
    as (h & log & E & Hh & _).
  rewrite E. cbn [fst]. rewrite accountsEffect_heap, accountsEffect_accounts.
  cbn [heap accounts].
  rewrite (In_Map_get loc (accounts st) k l Hwf Hin). simpl. f_equal.
  rewrite Hh, (keysAt_unique (accounts st) k l Hnd Hin). simpl.
  unfold reinitializeRecord. now rewrite HP, HW, HM, HS.
Qed.

(* ------------------------------------------------------------------ *)
(** ** Upserts: what the Ethereum refresh and the wallet merge write *)

Lemma updateEthereumWallet_fulfilled :
  forall (sdk : Sdk) (addr : string) (st : State) (r : BalanceResponse),
    truthy (Some addr) = true ->
    sdk (substrateOrMirrorIfEthereumNormalized addr) = Fulfilled r ->
    updateEthereumWallet (Some sdk) (Some addr) st
    = (accountsEffect
         (mkState
            (write (fresh (accounts st))
                   (ethereumRecord addr (Some (balance_of_response r)))
                   (heap st))
            (Map_set (substrateOrMirrorIfEthereumNormalized addr)
                     (fresh (accounts st)) (accounts st))
            (selectedAccountId st) (localStorage st) (console st)),
       Fulfilled tt).
Proof.
intros sdk addr st r Ht Hs. unfold updateEthereumWallet.
rewrite Ht, Hs. reflexivity.
Qed.

Lemma updateEthereumWallet_unchanged :
  forall (sdk : option Sdk) (address : option string) (st : State),
    fst (updateEthereumWallet sdk address st) = st
    \/ exists (sdk' : Sdk) addr r,
         sdk = Some sdk' /\ address = Some addr
         /\ truthy (Some addr) = true
         /\ sdk' (substrateOrMirrorIfEthereumNormalized addr) = Fulfilled r.
Proof.
intros sdk address st. unfold updateEthereumWallet.
destruct sdk as [sdk|]; [|now left].
destruct address as [addr|]; [|now left].
destruct (truthy (Some addr)) eqn:Ht; [|now left]. cbn [negb].
destruct (sdk (substrateOrMirrorIfEthereumNormalized addr)) as [r|e] eqn:Hs;
  [|now left].
right. now exists sdk, addr, r.
Qed.

Lemma upsert_get_same : forall (h : Heap) (m : JSMap loc) k l a,
  Map_get k (map (fun e => (fst e, write l a h (snd e))) (Map_set k l m))
  = Some a.
Proof.
intros h m k l a. rewrite snapshot_get, Map_get_set_same. simpl.
now rewrite write_same.
Qed.

Lemma upsert_get_other : forall (h : Heap) (m : JSMap loc) k k' a,
  k' <> k ->
  Map_get k' (map (fun e => (fst e, write (fresh m) a h (snd e)))
                  (Map_set k (fresh m) m))
  = Map_get k' (map (fun e => (fst e, h (snd e))) m).
Proof.
intros h m k k' a Hne.
rewrite !snapshot_get, Map_get_set_other by assumption.
destruct (Map_get k' m) as [l|] eqn:E; simpl; auto.
apply Map_get_In in E. apply fresh_above in E. simpl in E.
rewrite write_other by lia. reflexivity.
Qed.

Lemma fetchBalances_get :
  forall (sdk : Sdk) es acc res,
    fetchBalances sdk es acc = Fulfilled res ->
    forall k,
      (In k (map fst es) ->
       exists r a0,
         sdk k = Fulfilled r /\ In (k, a0) es
         /\ Map_get k res
            = Some (with_balance (Some (balance_of_response r))
                                 (with_signerType Polkadot a0)))
      /\ (~ In k (map fst es) -> Map_get k res = Map_get k acc).
Proof.
induction es as [|[k0 a0] es IH]; intros acc res Hres k; simpl in *.
- inversion Hres; subst. split; [contradiction|auto].
- destruct (sdk k0) as [r0|e0] eqn:E0; [|discriminate].
  specialize (IH _ _ Hres k). destruct IH as [IH1 IH2].
  destruct (in_dec string_dec k (map fst es)) as [Hin|Hnin].
  + split; [|tauto]. intros _.
    destruct (IH1 Hin) as (r & a & Hr & Ha & Hg).
    exists r, a. auto.
  + destruct (string_dec k0 k) as [Heq|Hne].
    * subst k0. split; [|tauto]. intros _.
      exists r0, a0. repeat split; auto.
      rewrite (IH2 Hnin). apply Map_get_set_same.
    * split; [tauto|]. intros _.
      rewrite (IH2 Hnin). apply Map_get_set_other. congruence.
Qed.

Lemma fetchBalances_keys :
  forall (sdk : Sdk) es acc res,
    fetchBalances sdk es acc = Fulfilled res ->
    (forall k, In k (map fst es) -> In k (Map_keys acc)) ->
    Map_keys res = Map_keys acc.
Proof.
induction es as [|[k0 a0] es IH]; intros acc res Hres Hsub; simpl in *.
- now inversion Hres.
- destruct (sdk k0) as [r0|e0]; [|discriminate].
  rewrite (IH _ _ Hres).
  + apply Map_keys_set_in. auto.
  + intros k Hk. rewrite Map_keys_set_in by auto. auto.
Qed.

(** The state a successful connect ends in. *)
Lemma setPolkadot_fulfilled :
  forall (sdk : Sdk) (connectWallet : WalletCenter)
         (walletName : option string) (st : State),
    snd (setPolkadotAccountsWithBalance (Some sdk) connectWallet walletName st)
    = Fulfilled tt ->
    exists pa res,
      connectWallet (walletNameOrDefault walletName) = Fulfilled pa
      /\ pa <> []
      /\ fetchBalances sdk pa pa = Fulfilled res
      /\ fst (setPolkadotAccountsWithBalance (Some sdk) connectWallet
                walletName st)
         = accountsEffect
             (mkState
                (fst (alloc_all (fresh (accounts st)) res (heap st)))
                (Map_of_entries
                   (accounts st
                    ++ snd (alloc_all (fresh (accounts st)) res (heap st))))
                (selectedAccountId st) (localStorage st) (console st)).
Proof.
intros sdk cw w st. unfold setPolkadotAccountsWithBalance.
destruct (cw (walletNameOrDefault w)) as [pa|e]; [|discriminate].
destruct pa as [|p pa']; [discriminate|]. simpl Nat.eqb. cbv iota.
destruct (fetchBalances sdk (p :: pa') (p :: pa')) as [res|e] eqn:Ef;
  [|discriminate].
intros _. exists (p :: pa'), res. repeat split; auto; try discriminate.
now destruct (alloc_all (fresh (accounts st)) res (heap st)).
Qed.

Lemma merged_get_new :
  forall (h : Heap) (m : JSMap loc) (res : JSMap Account) k a,
    Map_wf res -> In (k, a) res ->
    Map_get k
      (map (fun e => (fst e, fst (alloc_all (fresh m) res h) (snd e)))
           (Map_of_entries (m ++ snd (alloc_all (fresh m) res h))))
    = Some a.
Proof.
intros h m res k a Hwf Hin.
rewrite snapshot_get. unfold Map_of_entries. rewrite Map_set_all_app.
destruct (alloc_all_In res (fresh m) h k a Hin) as [l [Hl Ha]].
rewrite (Map_get_set_all_In loc _ _ k l).
- simpl. now rewrite Ha.
- rewrite alloc_all_keys. exact Hwf.
- exact Hl.
Qed.


(* ------------------------------------------------------------------ *)
(** ** Ethereum records *)

Lemma deleteEthereum_loop :
  forall (h : Heap) (es acc : JSMap loc),
    Map_wf acc ->
    let res := fold_left (fun newAccounts e =>
                            if isEthereum (h (snd e))
                            then Map_delete (fst e) newAccounts
                            else newAccounts) es acc in
    Map_wf res
    /\ forall e, In e res ->
         In e acc
         /\ forall e', In e' es -> isEthereum (h (snd e')) = true ->
                       fst e' <> fst e.
Proof.
induction es as [|e0 es IH]; intros acc Hwf; cbn [fold_left].
- split; [assumption|]. intros e He. split; [assumption|]. intros e' [].
- set (acc1 := if isEthereum (h (snd e0))
               then Map_delete (fst e0) acc else acc).
  assert (Hwf1 : Map_wf acc1).
  { unfold acc1. destruct (isEthereum (h (snd e0))); auto.
    now apply Map_delete_wf. }
  destruct (IH acc1 Hwf1) as [Hres Hin]. split; auto.
  intros e He. destruct (Hin e He) as [Hacc1 Hrest].
  assert (Hacc : In e acc).
  { unfold acc1 in Hacc1. destruct (isEthereum (h (snd e0))); auto.
    eapply Map_delete_In; eauto. }
  split; auto.
  intros e' [Heq|He'] HE; [|now apply Hrest].
  subst e'. unfold acc1 in Hacc1. rewrite HE in Hacc1.
  intros Hk. apply (Map_delete_keys_notin _ acc (fst e0) Hwf).
  rewrite Hk in *. unfold Map_keys. now apply (in_map fst).
Qed.

Lemma deleteEthereum_spec : forall (h : Heap) (m : JSMap loc),
  Map_wf m ->
  Map_wf (deleteEthereum h m)
  /\ forall k l, In (k, l) (deleteEthereum h m) ->
                 In (k, l) m /\ isEthereum (h l) = false.
Proof.
intros h m Hwf. destruct (deleteEthereum_loop h m m Hwf) as [Hres Hin].
split; auto. intros k l He. destruct (Hin _ He) as [Hm Hno].
split; auto.
destruct (isEthereum (h l)) eqn:HE; auto.
exfalso. now apply (Hno (k, l) Hm HE).
Qed.

Lemma disconnectEffect_connected : forall address st,
  truthy address = true -> disconnectEffect address st = st.
Proof. intros address st H. unfold disconnectEffect. now rewrite H. Qed.

Lemma disconnectEffect_registry : forall address st,
  truthy address = false ->
  heap (disconnectEffect address st) = heap st
  /\ accounts (disconnectEffect address st)
     = deleteEthereum (heap st) (accounts st)
  /\ selectedAccountId (disconnectEffect address st) = selectedAccountId st.
Proof.
intros address st H. unfold disconnectEffect. rewrite H.
rewrite accountsEffect_heap, accountsEffect_accounts,
        accountsEffect_selected.
cbn [heap accounts selectedAccountId].
destruct (getItem "accounts" (localStorage st)) as [saved|]; auto.
destruct (truthy (Some saved)); auto.
destruct (JSON_parse saved) as [[| | | |parsed|]|]; auto.
destruct (filterNotEthereum parsed); auto.
Qed.

Lemma fetchBalances_polkadot :
  forall (sdk : Sdk) pa res k a,
    Map_wf pa -> fetchBalances sdk pa pa = Fulfilled res ->
    In (k, a) res -> signerType a = Polkadot.
Proof.
intros sdk pa res k a Hwf Hres Hin.
assert (Hkeys : Map_keys res = Map_keys pa)
  by (apply (fetchBalances_keys sdk pa pa res Hres); auto).
assert (Hwfres : Map_wf res) by (unfold Map_wf; now rewrite Hkeys).
assert (Hk : In k (map fst pa)).
{ fold (Map_keys pa). rewrite <- Hkeys.
  change k with (fst (k, a)). now apply in_map. }
destruct (fetchBalances_get sdk pa pa res Hres k) as [Hget _].
destruct (Hget Hk) as (r & a0 & _ & _ & Hg).
rewrite (In_Map_get _ res k a Hwfres Hin) in Hg.
inversion Hg. reflexivity.
Qed.

Lemma setPolkadot_rejected_registry :
  forall (sdk : option Sdk) (connectWallet : WalletCenter) walletName st e,
    snd (setPolkadotAccountsWithBalance sdk connectWallet walletName st)
    = Rejected e ->
    accounts (fst (setPolkadotAccountsWithBalance sdk connectWallet
                     walletName st)) = accounts st
    /\ heap (fst (setPolkadotAccountsWithBalance sdk connectWallet
                    walletName st)) = heap st.
Proof.
intros sdk cw w st e. unfold setPolkadotAccountsWithBalance.
destruct sdk as [sdk|]; [|discriminate].
destruct (cw (walletNameOrDefault w)) as [pa|e']; auto.
destruct (Map_size pa =? 0)%nat; auto.
destruct (fetchBalances sdk pa pa) as [res|e'']; auto.
destruct (alloc_all (fresh (accounts st)) res (heap st)). discriminate.
Qed.

Lemma clearAccounts_empty : forall st, accounts (clearAccounts st) = [].
Proof.
intros st. unfold clearAccounts.
rewrite accountsEffect_empty by reflexivity.
now destruct (selectedAccountId st =? 0)%Z.
Qed.

(* ------------------------------------------------------------------ *)
(** ** The saved snapshot *)

Lemma reinitialize_persisted :
  forall (sdk : Sdk) (wallets : WalletExtensions) (st : State),
    accounts st <> [] ->
    persisted (fst (reinitializePolkadotAccountsWithBalance (Some sdk)
                      wallets st)).
Proof.
intros sdk wallets st Hne. unfold reinitializePolkadotAccountsWithBalance.
destruct (Map_size (accounts st) =? 0)%nat eqn:Esz.
{ apply Nat.eqb_eq in Esz. unfold Map_size in Esz.
  apply length_zero_iff_nil in Esz. congruence. }
destruct (reinitializeLoop sdk wallets st) as [[h u] log]. cbn [fst].
apply accountsEffect_persisted. cbn [accounts].
apply Map_set_all_nonempty. now right.
Qed.

Lemma setPolkadot_persisted :
  forall (sdk : Sdk) (connectWallet : WalletCenter) walletName st,
    snd (setPolkadotAccountsWithBalance (Some sdk) connectWallet walletName st)
    = Fulfilled tt ->
    persisted (fst (setPolkadotAccountsWithBalance (Some sdk) connectWallet
                      walletName st)).
Proof.
intros sdk cw w st Hok.
destruct (setPolkadot_fulfilled sdk cw w st Hok)
  as (pa & res & _ & Hne & Hres & Hst).
rewrite Hst. apply accountsEffect_persisted. cbn [accounts].
apply Map_set_all_nonempty. left.
assert (Hkeys : Map_keys res = Map_keys pa)
  by (apply (fetchBalances_keys sdk pa pa res Hres); auto).
pose proof (alloc_all_keys res (fresh (accounts st)) (heap st)) as Hk.
destruct (snd (alloc_all (fresh (accounts st)) res (heap st))) as [|e ls].
- simpl in Hk. unfold Map_keys in Hkeys. rewrite <- Hk in Hkeys.
  destruct pa; [congruence|discriminate].
- destruct (accounts st); discriminate.
Qed.




End ProviderFacts.

(* ------------------------------------------------------------------ *)
(** ** The theorems on concrete registries *)

Section Examples.
Import Example.

(** The selection example on concrete registries. *)
Lemma selection_is_positional_witness :
  selectedAccount (setSelectedAccountId 5 Example.two) = None
  /\ exists a, selectedAccount Example.six = Some a.
Proof.
destruct (selection_is_positional Example.two 5) as [_ [_ [_ [_ [H2 H6]]]]].
split; [apply H2; reflexivity | apply H6; reflexivity].
Defined.

Lemma restore_unparsable_snapshot_witness :
  let st := restoreEffect
              (initialState (heap Example.start)
                 (setItem "accounts" "{oops" Example.emptyStorage) 3) in
  accounts st = []
  /\ console st
     = [ConsoleError "Failed to restore accounts from localStorage"].
Proof.
destruct (restore_unparsable_snapshot (RT := runtime) (heap Example.start)
            (setItem "accounts" "{oops" Example.emptyStorage) 3 "{oops"
            eq_refl eq_refl) as [Ha [_ [Hlog _]]].
split; [exact Ha|]. apply Hlog. discriminate.
Defined.

Lemma connect_is_all_or_nothing_witness :
  exists e',
    setPolkadotAccountsWithBalance (Some (Example.sdkFailingFor "5Bob"))
      (fun _ => Fulfilled Example.twoAccounts) None Example.start
    = (Example.start, Rejected e').
Proof.
apply (connect_is_all_or_nothing (RT := runtime)
         (Example.sdkFailingFor "5Bob")
         (fun _ => Fulfilled Example.twoAccounts) None Example.start
         Example.twoAccounts "5Bob"
         (Example.polkadotAccount "5Bob" "Bob" 2)
         "balance service unreachable").
- reflexivity.
- simpl. right. left. reflexivity.
- reflexivity.
Defined.

Ltac distinct_keys :=
  repeat (constructor; [simpl; intuition discriminate|]); constructor.



(** Alice's balance request fails: she is reported on the console,
    and Bob is still refreshed. *)
Lemma reinitialize_isolates_failures_witness :
  snd (reinitializePolkadotAccountsWithBalance
         (Some (sdkFailingFor "5Alice")) extensions two) = Fulfilled tt
  /\ In (reinitializeFailure "5Alice")
        (console (fst (reinitializePolkadotAccountsWithBalance
                         (Some (sdkFailingFor "5Alice")) extensions two)))
  /\ heap (fst (reinitializePolkadotAccountsWithBalance
                  (Some (sdkFailingFor "5Alice")) extensions two)) 2
     = with_balance (Some 1.5%float)
         (with_signer (Some (HandleRef 8)) (polkadotAccount "5Bob" "Bob" 2)).
Proof.
assert (Hwf : Map_wf (accounts two))
  by (unfold Map_wf; simpl; distinct_keys).
assert (Hnd : NoDup (Map_values (accounts two)))
  by (simpl; repeat (constructor; [simpl; intuition discriminate|]);
      constructor).
destruct (reinitialize_isolates_failures (RT := runtime)
            (sdkFailingFor "5Alice") extensions two Hwf Hnd)
  as (Hok & Hentries & _).
split; [exact Hok|]. split.
- apply (Hentries "5Alice" 1); [simpl; auto|reflexivity|reflexivity].
- apply (proj2 (Hentries "5Bob" 2 (or_intror (or_introl eq_refl)) eq_refl)
           listed (polkadotAccount "5Bob" "Bob" 8) oneUnique);
    reflexivity.
Defined.

(** Against C3: a balance request that rejects during a connect is not
    caught: the call rejects, nothing is logged, and the account whose
    request would have succeeded is not merged. *)
Lemma connect_failure_propagates :
  setPolkadotAccountsWithBalance (Some (sdkFailingFor "5Alice"))
    (fun _ => Fulfilled twoAccounts) None start
  = (start, Rejected "balance service unreachable")
  /\ sdkFailingFor "5Alice" "5Bob" = Fulfilled oneUnique
  /\ console start = [] /\ snapshot start = [].
Proof. repeat split. Qed.

Lemma reinitialize_failed_balance_keeps_new_signer_witness :
  signer aliceReloaded = None
  /\ Map_get "5Alice" (snapshot reloaded) = Some aliceReloaded
  /\ Map_get "5Alice"
       (snapshot (fst (reinitializePolkadotAccountsWithBalance
                         (Some (sdkFailingFor "5Alice")) extensions
                         reloaded)))
     = Some (with_signer (Some (HandleRef 7)) aliceReloaded).
Proof.
split; [reflexivity|]. split; [reflexivity|].
assert (Hwf : Map_wf (accounts reloaded))
  by (unfold Map_wf; simpl; distinct_keys).
assert (Hnd : NoDup (Map_values (accounts reloaded)))
  by (simpl; constructor; [intros []|constructor]).
destruct (reinitialize_failed_balance_keeps_new_signer (RT := runtime)
            (sdkFailingFor "5Alice") extensions reloaded "5Alice" 1
            Hwf Hnd (or_introl eq_refl) eq_refl) as [_ Hbal].
destruct (Hbal listed (polkadotAccount "5Alice" "Alice" 7)
               "balance service unreachable" eq_refl eq_refl eq_refl)
  as [_ Hsnap].
exact Hsnap.
Defined.

Lemma reinitialize_twice_is_once_witness :
  snapshot (fst (reinitializePolkadotAccountsWithBalance (Some sdkOne)
                   extensions
                   (fst (reinitializePolkadotAccountsWithBalance
                           (Some sdkOne) extensions reloaded))))
  = snapshot (fst (reinitializePolkadotAccountsWithBalance (Some sdkOne)
                     extensions reloaded)).
Proof.
assert (Hwf : Map_wf (accounts reloaded))
  by (unfold Map_wf; simpl; distinct_keys).
exact (proj1 (reinitialize_twice_is_once (RT := runtime) (Some sdkOne)
                extensions reloaded Hwf)).
Defined.

(** Against C8: the empty string is rejected by [JSON.parse] as well,
    and restoring from it logs nothing. *)
Lemma empty_saved_string_is_not_logged :
  JSON_parse "" = None
  /\ console (restoreEffect
                (initialState (heap start)
                   (setItem "accounts" "" emptyStorage) 3)) = []
  /\ accounts (restoreEffect
                 (initialState (heap start)
                    (setItem "accounts" "" emptyStorage) 3)) = [].
Proof. repeat split. Qed.

End Examples.

(* ------------------------------------------------------------------ *)
(** * Further properties of the provider *)

Section ListFacts.
Variable A : Type.

Lemma filter_filter : forall (f g : A -> bool) (l : list A),
  filter f (filter g l) = filter (fun x => g x && f x) l.
Proof.
intros f g. induction l as [|x l IH]; simpl; auto.
destruct (g x); simpl; [destruct (f x)|]; now rewrite IH.
Qed.

Lemma filter_all : forall (f : A -> bool) (l : list A),
  (forall x, In x l -> f x = true) -> filter f l = l.
Proof.
intros f. induction l as [|x l IH]; intros H; simpl; auto.
rewrite (H x (or_introl eq_refl)). f_equal. apply IH.
intros y Hy. apply H. now right.
Qed.
End ListFacts.

Section JSMapMoreFacts.
Variable V : Type.
Implicit Types (m : JSMap V) (k : string) (v : V).

Lemma Map_delete_filter : forall m k,
  Map_wf m ->
  Map_delete k m = filter (fun e => negb (String.eqb k (fst e))) m.
Proof.
unfold Map_wf.
induction m as [|[k0 v0] m IH]; intros k Hwf; simpl; auto.
inversion Hwf as [|? ? Hnin Hwf']; subst.
destruct (String.eqb k k0) eqn:E; simpl.
- apply String.eqb_eq in E. subst k0. symmetry. apply filter_all.
  intros [k1 v1] Hin. simpl.
  destruct (String.eqb k k1) eqn:E1; auto.
  apply String.eqb_eq in E1. subst k1. exfalso. apply Hnin.
  change k with (fst (k, v1)). now apply in_map.
- f_equal. now apply IH.
Qed.

Lemma Map_keys_set_extends : forall m k v,
  exists extra, Map_keys (Map_set k v m) = Map_keys m ++ extra.
Proof.
intros m k v. destruct (in_dec string_dec k (Map_keys m)) as [Hin|Hnin].
- exists []. rewrite Map_keys_set_in by assumption. now rewrite app_nil_r.
- exists [k]. now apply Map_keys_set_notin.
Qed.

Lemma Map_keys_set_all_extends : forall es m,
  exists extra, Map_keys (Map_set_all es m) = Map_keys m ++ extra.
Proof.
unfold Map_set_all.
induction es as [|[k v] es IH]; intros m; simpl.
- exists []. now rewrite app_nil_r.
- destruct (IH (Map_set k v m)) as [x1 H1].
  destruct (Map_keys_set_extends m k v) as [x0 H0].
  exists (x0 ++ x1). now rewrite H1, H0, app_assoc.
Qed.

Lemma Map_set_set : forall m k v v',
  Map_set k v (Map_set k v' m) = Map_set k v m.
Proof.
induction m as [|[k0 v0] m IH]; intros k v v'; simpl.
- now rewrite String.eqb_refl.
- destruct (String.eqb k k0) eqn:E; simpl.
  + now rewrite String.eqb_refl.
  + rewrite E. f_equal. apply IH.
Qed.

Lemma Map_set_map : forall (W : Type) (f : V -> W) m k v,
  map (fun e => (fst e, f (snd e))) (Map_set k v m)
  = Map_set k (f v) (map (fun e => (fst e, f (snd e))) m).
Proof.
intros W f. induction m as [|[k0 v0] m IH]; intros k v; simpl; auto.
destruct (String.eqb k k0); simpl; auto. f_equal. apply IH.
Qed.

Lemma Map_set_all_map : forall (W : Type) (f : V -> W) es m,
  map (fun e => (fst e, f (snd e))) (Map_set_all es m)
  = Map_set_all (map (fun e => (fst e, f (snd e))) es)
                (map (fun e => (fst e, f (snd e))) m).
Proof.
intros W f. unfold Map_set_all.
induction es as [|[k v] es IH]; intros m; simpl; auto.
rewrite IH. f_equal. apply Map_set_map.
Qed.

Lemma Map_set_all_twice : forall es m,
  Map_wf m -> NoDup (map fst es) ->
  Map_set_all es (Map_set_all es m) = Map_set_all es m.
Proof.
intros es m Hwf Hnd. apply Map_set_all_present.
- now apply Map_set_all_wf.
- intros [k v] Hin. apply Map_get_In.
  now apply Map_get_set_all_In.
Qed.
End JSMapMoreFacts.

Section ProviderMore.
Context {RT : Runtime}.

(* ------------------------------------------------------------------ *)
(** ** The disconnect purge *)

Lemma deleteEthereum_loop_filter :
  forall (h : Heap) (es acc : JSMap loc),
    Map_wf acc ->
    fold_left (fun newAccounts e =>
                 if isEthereum (h (snd e))
                 then Map_delete (fst e) newAccounts
                 else newAccounts) es acc
    = filter (fun e =>
                negb (existsb (fun e' => isEthereum (h (snd e'))
                                         && String.eqb (fst e') (fst e)) es))
             acc.
Proof.
induction es as [|e0 es IH]; intros acc Hwf; cbn [fold_left].
- symmetry. apply filter_all. reflexivity.
- destruct (isEthereum (h (snd e0))) eqn:HE.
  + rewrite IH by now apply Map_delete_wf.
    rewrite Map_delete_filter by assumption. rewrite filter_filter.
    apply filter_ext. intros e. cbn [existsb]. rewrite HE. cbn [andb].
    now rewrite negb_orb.
  + rewrite IH by assumption.
    apply filter_ext. intros e. cbn [existsb]. now rewrite HE.
Qed.

Lemma deleteEthereum_filter : forall (h : Heap) (m : JSMap loc),
  Map_wf m ->
  deleteEthereum h m = filter (fun e => negb (isEthereum (h (snd e)))) m.
Proof.
intros h m Hwf. unfold deleteEthereum.
rewrite deleteEthereum_loop_filter by assumption.
apply filter_ext_in. intros [k l] Hin. f_equal. cbn [fst snd].
destruct (isEthereum (h l)) eqn:HE.
- apply existsb_exists. exists (k, l). cbn [fst snd].
  now rewrite HE, String.eqb_refl.
- destruct (existsb _ m) eqn:Hex; auto.
  apply existsb_exists in Hex. destruct Hex as [[k' l'] [Hin' Hc]].
  cbn [fst snd] in Hc. apply andb_prop in Hc. destruct Hc as [HE' Hk].
  apply String.eqb_eq in Hk. subst k'.
  pose proof (In_Map_get _ m k l Hwf Hin) as G.
  pose proof (In_Map_get _ m k l' Hwf Hin') as G'.
  congruence.
Qed.

Lemma disconnectEffect_snapshot : forall address st,
  truthy address = false -> Map_wf (accounts st) ->
  snapshot (disconnectEffect address st) = filter notEthereum (snapshot st).
Proof.
intros address st Ht Hwf.
destruct (disconnectEffect_registry address st Ht) as (Hh & Ha & _).
unfold snapshot. rewrite Hh, Ha, deleteEthereum_filter by assumption.
symmetry. apply filter_map_swap.
Qed.

(** X1.  When the active address is absent, the purge removes every
    Ethereum record and nothing else: the remaining records keep their
    order and contents, the selected index is not touched, and a second
    purge changes nothing. *)
Theorem purge_removes_exactly_ethereum :
  forall (address : option string) (st : State),
    truthy address = false -> Map_wf (accounts st) ->
    let st' := disconnectEffect address st in
    snapshot st' = filter notEthereum (snapshot st)
    /\ ethereumCount st' = 0
    /\ selectedAccountId st' = selectedAccountId st
    /\ snapshot (disconnectEffect address st') = snapshot st'.
Proof.
intros address st Ht Hwf st'.
assert (Hsnap : snapshot st' = filter notEthereum (snapshot st))
  by now apply disconnectEffect_snapshot.
assert (Hwf' : Map_wf (accounts st')).
{ subst st'. destruct (disconnectEffect_registry address st Ht)
    as (_ & Ha & _).
  rewrite Ha. now apply deleteEthereum_spec. }
split; [exact Hsnap|]. split; [|split].
- unfold ethereumCount. rewrite Hsnap, filter_filter.
  rewrite (filter_ext _ (fun _ => false)); [now rewrite filter_false|].
  intros e. unfold notEthereum. now destruct (isEthereum (snd e)).
- subst st'. now destruct (disconnectEffect_registry address st Ht)
    as (_ & _ & Hi).
- rewrite (disconnectEffect_snapshot address st' Ht Hwf'), Hsnap.
  rewrite filter_filter. apply filter_ext. intros e.
  now destruct (notEthereum e).
Qed.

(* ------------------------------------------------------------------ *)
(** ** Keys and positions *)

(** The outcomes of a connect: nothing of the registry or the storage
    changed, or the call fulfilled with the merge. *)
Lemma setPolkadot_cases :
  forall (sdk : option Sdk) (connectWallet : WalletCenter) walletName st,
    let st' := fst (setPolkadotAccountsWithBalance sdk connectWallet
                      walletName st) in
    (accounts st' = accounts st /\ heap st' = heap st
     /\ selectedAccountId st' = selectedAccountId st
     /\ localStorage st' = localStorage st)
    \/ (exists sdk',
          sdk = Some sdk'
          /\ snd (setPolkadotAccountsWithBalance (Some sdk') connectWallet
                    walletName st) = Fulfilled tt).
Proof.
intros sdk cw w st st'. subst st'.
destruct sdk as [sdk|]; [|left; simpl; auto].
destruct (snd (setPolkadotAccountsWithBalance (Some sdk) cw w st))
  as [[]|e] eqn:Es.
- right. now exists sdk.
- left. revert Es. unfold setPolkadotAccountsWithBalance.
  destruct (cw (walletNameOrDefault w)) as [pa|e']; auto.
  destruct (Map_size pa =? 0)%nat; auto.
  destruct (fetchBalances sdk pa pa) as [res|e'']; auto.
  destruct (alloc_all (fresh (accounts st)) res (heap st)). discriminate.
Qed.

Lemma updateEthereumWallet_wf : forall sdk address st,
  Map_wf (accounts st) ->
  Map_wf (accounts (fst (updateEthereumWallet sdk address st))).
Proof.
intros sdk address st Hwf.
destruct (updateEthereumWallet_unchanged sdk address st)
  as [E|(sdk' & addr & r & Es & Ea & Ht & Hr)]; [now rewrite E|].
subst. rewrite (updateEthereumWallet_fulfilled sdk' addr st r Ht Hr).
cbn [fst]. rewrite accountsEffect_accounts. cbn [accounts].
now apply Map_set_wf.
Qed.

Lemma setPolkadot_wf : forall sdk connectWallet walletName st,
  Map_wf (accounts st) ->
  Map_wf (accounts (fst (setPolkadotAccountsWithBalance sdk connectWallet
                           walletName st))).
Proof.
intros sdk cw w st Hwf.
destruct (setPolkadot_cases sdk cw w st) as [(Ha & _)|(sdk' & Es & Hok)].
- now rewrite Ha.
- subst sdk.
  destruct (setPolkadot_fulfilled sdk' cw w st Hok)
    as (pa & res & _ & _ & _ & Hst).
  rewrite Hst, accountsEffect_accounts. cbn [accounts].
  apply Map_of_entries_wf.
Qed.

Lemma reinitialize_accounts :
  forall (sdk : option Sdk) (wallets : WalletExtensions) (st : State),
    exists u,
      accounts (fst (reinitializePolkadotAccountsWithBalance sdk wallets st))
      = Map_set_all u (accounts st)
      /\ selectedAccountId
           (fst (reinitializePolkadotAccountsWithBalance sdk wallets st))
         = selectedAccountId st.
Proof.
intros sdk wallets st. unfold reinitializePolkadotAccountsWithBalance.
destruct sdk as [sdk|]; [|now exists []].
destruct (Map_size (accounts st) =? 0)%nat; [now exists []|].
destruct (reinitializeLoop sdk wallets st) as [[h u] log]. cbn [fst].
exists u. now rewrite accountsEffect_accounts, accountsEffect_selected.
Qed.

Lemma disconnectEffect_wf : forall address st,
  Map_wf (accounts st) -> Map_wf (accounts (disconnectEffect address st)).
Proof.
intros address st Hwf. destruct (truthy address) eqn:Ht.
- now rewrite disconnectEffect_connected.
- destruct (disconnectEffect_registry address st Ht) as (_ & Ha & _).
  rewrite Ha. now apply deleteEthereum_spec.
Qed.

Lemma restoreEffect_wf : forall st,
  Map_wf (accounts st) -> Map_wf (accounts (restoreEffect st)).
Proof.
intros st Hwf. unfold restoreEffect.
destruct (truthy (getItem "accounts" (localStorage st))).
- cbn [negb]. destruct (getItem "accounts" (localStorage st)) as [s|]; auto.
  destruct (JSON_parse s) as [doc|]; auto.
  destruct (entries_of_json doc) as [es|]; auto.
  destruct (alloc_all (fresh (accounts st)) es (heap st)) as [h ls].
  rewrite accountsEffect_accounts. apply Map_of_entries_wf.
- cbn [negb]. rewrite accountsEffect_empty by reflexivity.
  destruct (selectedAccountId st =? 0)%Z; constructor.
Qed.

Lemma keepsPositions_selectedAddress : forall st st' k,
  keepsPositions st st' ->
  selectedAddress st = Some k -> selectedAddress st' = Some k.
Proof.
intros st st' k [[extra Hk] Hi]. unfold selectedAddress.
rewrite Hi, Hk.
destruct (0 <=? selectedAccountId st)%Z; [|discriminate].
intros Hn. rewrite nth_error_app1; auto.
apply nth_error_Some. congruence.
Qed.

Lemma updateEthereumWallet_keepsPositions : forall sdk address st,
  keepsPositions st (fst (updateEthereumWallet sdk address st)).
Proof.
intros sdk address st.
destruct (updateEthereumWallet_unchanged sdk address st)
  as [E|(sdk' & addr & r & Es & Ea & Ht & Hr)].
- rewrite E. split; auto. exists []. now rewrite app_nil_r.
- subst. rewrite (updateEthereumWallet_fulfilled sdk' addr st r Ht Hr).
  cbn [fst]. split.
  + rewrite accountsEffect_accounts. cbn [accounts].
    apply Map_keys_set_extends.
  + now rewrite accountsEffect_selected.
Qed.

Lemma setPolkadot_keepsPositions : forall sdk connectWallet walletName st,
  Map_wf (accounts st) ->
  keepsPositions st (fst (setPolkadotAccountsWithBalance sdk connectWallet
                            walletName st)).
Proof.
intros sdk cw w st Hwf.
destruct (setPolkadot_cases sdk cw w st)
  as [(Ha & _ & Hi & _)|(sdk' & Es & Hok)].
- split; auto. exists []. now rewrite Ha, app_nil_r.
- subst sdk.
  destruct (setPolkadot_fulfilled sdk' cw w st Hok)
    as (pa & res & _ & _ & _ & Hst).
  rewrite Hst. split; [|now rewrite accountsEffect_selected].
  rewrite accountsEffect_accounts. cbn [accounts].
  unfold Map_of_entries. rewrite Map_set_all_app.
  fold (Map_of_entries (accounts st)).
  rewrite Map_of_entries_wf_id by assumption.
  apply Map_keys_set_all_extends.
Qed.

Lemma reinitialize_keepsPositions : forall sdk wallets st,
  keepsPositions st
    (fst (reinitializePolkadotAccountsWithBalance sdk wallets st)).
Proof.
intros sdk wallets st.
destruct (reinitialize_accounts sdk wallets st) as (u & Hu & Hi).
split; auto. rewrite Hu. apply Map_keys_set_all_extends.
Qed.

(** X3.  The three upserting operations never remove or reorder an
    entry: the addresses registered before are still at their
    positions, new ones are appended, and the selected index is not
    changed.  Whatever address was selected is still the selected one. *)
Theorem upserts_keep_positions :
  forall (st : State),
    Map_wf (accounts st) ->
    (forall sdk address k,
        keepsPositions st (fst (updateEthereumWallet sdk address st))
        /\ (selectedAddress st = Some k ->
            selectedAddress (fst (updateEthereumWallet sdk address st))
            = Some k))
    /\ (forall sdk connectWallet walletName k,
          keepsPositions st
            (fst (setPolkadotAccountsWithBalance sdk connectWallet
                    walletName st))
          /\ (selectedAddress st = Some k ->
              selectedAddress
                (fst (setPolkadotAccountsWithBalance sdk connectWallet
                        walletName st)) = Some k))
    /\ (forall sdk wallets k,
          keepsPositions st
            (fst (reinitializePolkadotAccountsWithBalance sdk wallets st))
          /\ (selectedAddress st = Some k ->
              selectedAddress
                (fst (reinitializePolkadotAccountsWithBalance sdk wallets
                        st)) = Some k)).
Proof.
intros st Hwf. split; [|split].
- intros sdk address k.
  pose proof (updateEthereumWallet_keepsPositions sdk address st) as H.
  split; [exact H|]. now apply keepsPositions_selectedAddress.
- intros sdk cw w k.
  pose proof (setPolkadot_keepsPositions sdk cw w st Hwf) as H.
  split; [exact H|]. now apply keepsPositions_selectedAddress.
- intros sdk wallets k.
  pose proof (reinitialize_keepsPositions sdk wallets st) as H.
  split; [exact H|]. now apply keepsPositions_selectedAddress.
Qed.

(* ------------------------------------------------------------------ *)
(** ** Clearing and restoring *)

(** X4.  [clearAccounts] empties the registry, selects index 0 and
    removes the saved snapshot, leaving the console and every other
    storage key alone.  The saved index is removed as well, but when the
    selected index was not 0 the effect on [selectedAccountId] runs
    after the reset and saves ["0"] again. *)
Theorem clear_resets_registry_and_storage :
  forall (st : State),
    let st' := clearAccounts st in
    snapshot st' = [] /\ selectedAccountId st' = 0%Z
    /\ selectedAccount st' = None /\ console st' = console st
    /\ getItem "accounts" (localStorage st') = None
    /\ getItem "selectedAccountId" (localStorage st')
       = (if (selectedAccountId st =? 0)%Z then None else Some "0")
    /\ (forall k, k <> "accounts" -> k <> "selectedAccountId" ->
                  getItem k (localStorage st') = getItem k (localStorage st)).
Proof.
intros st st'. subst st'. unfold clearAccounts.
rewrite accountsEffect_empty by reflexivity.
destruct (selectedAccountId st =? 0)%Z; cbn;
  (repeat split; auto;
   intros k H1 H2; unfold getItem, setItem, removeItem;
   apply String.eqb_neq in H1; apply String.eqb_neq in H2;
   now rewrite ?H1, ?H2).
Qed.

Lemma alloc_all_snapshot : forall es base h,
  map (fun e => (fst e, fst (alloc_all base es h) (snd e)))
      (snd (alloc_all base es h))
  = es.
Proof.
induction es as [|[k a] es IH]; intros base h; simpl; auto.
pose proof (IH (S base) (write base a h)) as IH'.
pose proof (alloc_all_old es (S base) (write base a h) base) as Hold.
destruct (alloc_all (S base) es (write base a h)) as [h' ls].
cbn [fst snd map] in *. rewrite IH', Hold by lia.
now rewrite write_same.
Qed.

(** X5.  When the saved snapshot parses to a list of entries, the
    restore effect replaces the registry by those entries (a later entry
    of a repeated key overriding the earlier one), keeps the selected
    index, logs nothing and, unless the list is empty, saves the
    snapshot back.  A document that parses but is not a list of entries
    is handled like a syntax error: one line on the console, state
    unchanged. *)
Theorem restore_reads_saved_entries :
  forall (st : State) (saved : string) (doc : json),
    getItem "accounts" (localStorage st) = Some saved ->
    saved <> "" ->
    JSON_parse saved = Some doc ->
    (forall es,
        entries_of_json doc = Some es ->
        let st' := restoreEffect st in
        snapshot st' = Map_of_entries es
        /\ selectedAccountId st' = selectedAccountId st
        /\ console st' = console st
        /\ (es <> [] -> persisted st'))
    /\ (entries_of_json doc = None ->
        restoreEffect st
        = logged (ConsoleError "Failed to restore accounts from localStorage")
                 st).
Proof.
intros st saved doc Hsaved Hne Hparse.
assert (Ht : truthy (Some saved) = true)
  by (destruct saved; [congruence|reflexivity]).
split.
- intros es Hes st'. subst st'. unfold restoreEffect.
  rewrite Hsaved, Ht, Hparse, Hes. cbn [negb].
  pose proof (alloc_all_snapshot es (fresh (accounts st)) (heap st)) as Hal.
  destruct (alloc_all (fresh (accounts st)) es (heap st)) as [h ls].
  cbn [fst snd] in Hal.
  rewrite accountsEffect_snapshot, accountsEffect_selected,
          accountsEffect_console.
  cbn [selectedAccountId console].
  assert (Hsnap : snapshot (mkState h (Map_of_entries ls)
                              (selectedAccountId st) (localStorage st)
                              (console st)) = Map_of_entries es).
  { unfold snapshot. cbn [heap accounts]. unfold Map_of_entries.
    rewrite Map_set_all_map. now rewrite Hal. }
  repeat split; auto.
  intros Hnonempty. apply accountsEffect_persisted. cbn [accounts].
  apply Map_set_all_nonempty. left. intros ->. now subst es.
- intros Hes. unfold restoreEffect.
  now rewrite Hsaved, Ht, Hparse, Hes.
Qed.

(* ------------------------------------------------------------------ *)
(** ** Reinitialization: frame and console *)

Lemma reinitialize_heap :
  forall (sdk : Sdk) (wallets : WalletExtensions) (st : State) l,
    heap (fst (reinitializePolkadotAccountsWithBalance (Some sdk) wallets
                 st)) l
    = fold_left (fun r k => reinitializeRecord sdk wallets k r)
                (keysAt l (accounts st)) (heap st l).
Proof.
intros sdk wallets st l. unfold reinitializePolkadotAccountsWithBalance.
destruct (Map_size (accounts st) =? 0)%nat eqn:Esz.
{ apply Nat.eqb_eq in Esz. unfold Map_size in Esz.
  apply length_zero_iff_nil in Esz. now rewrite Esz. }
assert (Hheap : fst (fst (reinitializeLoop sdk wallets st)) l
                = fold_left (fun r k => reinitializeRecord sdk wallets k r)
                            (keysAt l (accounts st)) (heap st l))
  by apply reinitialize_loop_heap.
destruct (reinitializeLoop sdk wallets st) as [[h u] log].
cbn [fst] in *. now rewrite accountsEffect_heap.
Qed.

(** X6.  Of a record, [reinitializePolkadotAccountsWithBalance] can only
    change [signer] and [balance]: every other field of every object is
    as it was, whatever the keys that lead to the object.  A record that
    is not of Polkadot type, or whose extension does not list its
    normalized address, is left exactly as it was.  The selected index
    is not changed. *)
Theorem reinitialize_only_refreshes_signer_and_balance :
  forall (sdk : option Sdk) (wallets : WalletExtensions) (st : State),
    let st' :=
      fst (reinitializePolkadotAccountsWithBalance sdk wallets st) in
    selectedAccountId st' = selectedAccountId st
    /\ forall l,
         (address (heap st' l) = address (heap st l)
          /\ signerType (heap st' l) = signerType (heap st l)
          /\ name (heap st' l) = name (heap st l)
          /\ normalizedAddress (heap st' l) = normalizedAddress (heap st l)
          /\ sign (heap st' l) = sign (heap st l)
          /\ walletType (heap st' l) = walletType (heap st l))
         /\ (isPolkadot (heap st l) = false -> heap st' l = heap st l)
         /\ (forall wa,
               wallets (walletType (heap st l)) = Fulfilled wa ->
               Map_get (normalizedAddress (heap st l)) wa = None ->
               heap st' l = heap st l).
Proof.
intros sdk wallets st st'. subst st'.
split; [exact (proj2 (reinitialize_keepsPositions sdk wallets st))|].
destruct sdk as [sdk|]; [|simpl; repeat split; auto].
intros l. rewrite reinitialize_heap.
split; [apply reinitializeRecords_frame|].
rewrite reinitializeRecords_shape. split.
- intros HP. now rewrite HP.
- intros wa HW HM. rewrite HW, HM. now destruct (isPolkadot (heap st l)).
Qed.

Lemma reinitializeAccount_console_exact :
  forall (sdk : Sdk) (wallets : WalletExtensions) h u log k l,
    snd (reinitializeAccount sdk wallets (h, u, log) (k, l))
    = log ++ (if isPolkadot (h l) && fetchFails sdk wallets k (h l)
              then [reinitializeFailure k] else []).
Proof.
intros sdk wallets h u log k l.
unfold reinitializeAccount, fetchFails, reinitializeFailure.
destruct (isPolkadot (h l)); cbn [andb snd]; [|now rewrite app_nil_r].
destruct (wallets (walletType (h l))) as [wa|e]; cbn [snd]; auto.
destruct (Map_get (normalizedAddress (h l)) wa) as [w|]; cbn [snd];
  [|now rewrite app_nil_r].
destruct (sdk k) as [r|e]; cbn [snd]; auto. now rewrite app_nil_r.
Qed.

Lemma reinitialize_loop_console_exact :
  forall (sdk : Sdk) (wallets : WalletExtensions) es h u log,
    snd (fold_left (reinitializeAccount sdk wallets) es (h, u, log))
    = log ++ map (fun e => reinitializeFailure (fst e))
                 (filter (fun e =>
                            isPolkadot (h (snd e))
                            && fetchFails sdk wallets (fst e) (h (snd e)))
                         es).
Proof.
induction es as [|[k0 l0] es IH]; intros h u log; cbn [fold_left].
- simpl. now rewrite app_nil_r.
- remember (reinitializeAccount sdk wallets (h, u, log) (k0, l0)) as s1
    eqn:Es1.
  assert (Hlog : snd s1
                 = log ++ (if isPolkadot (h l0)
                              && fetchFails sdk wallets k0 (h l0)
                           then [reinitializeFailure k0] else []))
    by (subst s1; apply reinitializeAccount_console_exact).
  assert (Hheap : forall l,
            fst (fst s1) l
            = if Nat.eqb l l0
              then reinitializeRecord sdk wallets k0 (h l0) else h l)
    by (intros l; subst s1; apply reinitializeAccount_heap).
  destruct s1 as [[h1 u1] log1]. cbn [fst snd] in Hlog, Hheap.
  rewrite IH, Hlog.
  assert (Hsame : forall e,
            isPolkadot (h1 (snd e))
            && fetchFails sdk wallets (fst e) (h1 (snd e))
            = isPolkadot (h (snd e))
              && fetchFails sdk wallets (fst e) (h (snd e))).
  { intros [k l]. cbn [fst snd]. rewrite Hheap.
    destruct (Nat.eqb l l0) eqn:E; auto.
    apply Nat.eqb_eq in E. subst l0.
    destruct (reinitializeRecord_frame sdk wallets k0 (h l))
      as (_ & HT & _ & HN & _ & HW).
    cbn zeta in HT, HN, HW.
    rewrite (fetchFails_frame sdk wallets k (h l) _ HW HN).
    unfold isPolkadot. now rewrite HT. }
  rewrite (filter_ext _ _ Hsame). cbn [filter fst snd].
  destruct (isPolkadot (h l0) && fetchFails sdk wallets k0 (h l0));
    cbn [map fst]; now rewrite <- app_assoc.
Qed.

(** X7.  The console after a reinitialization is the console before it
    followed by one failure line for each Polkadot account whose
    extension could not be listed or whose balance request rejected, in
    the order of the map.  An account the extension no longer lists
    produces no line. *)
Theorem reinitialize_logs_exactly_the_failures :
  forall (sdk : Sdk) (wallets : WalletExtensions) (st : State),
    console (fst (reinitializePolkadotAccountsWithBalance (Some sdk)
                    wallets st))
    = console st
      ++ map (fun e => reinitializeFailure (fst e))
             (failingEntries sdk wallets st).
Proof.
intros sdk wallets st. unfold reinitializePolkadotAccountsWithBalance.
destruct (Map_size (accounts st) =? 0)%nat eqn:Esz.
- apply Nat.eqb_eq in Esz. unfold Map_size in Esz.
  apply length_zero_iff_nil in Esz. cbn [fst].
  unfold failingEntries. rewrite Esz. simpl. now rewrite app_nil_r.
- assert (Hlog : snd (reinitializeLoop sdk wallets st)
                 = console st
                   ++ map (fun e => reinitializeFailure (fst e))
                          (failingEntries sdk wallets st))
    by apply reinitialize_loop_console_exact.
  destruct (reinitializeLoop sdk wallets st) as [[h u] log].
  cbn [fst snd] in *. now rewrite accountsEffect_console.
Qed.

(* ------------------------------------------------------------------ *)
(** ** Upserts on the snapshot *)

Lemma snapshot_untouched_below_fresh :
  forall (h h' : Heap) (m : JSMap loc),
    (forall l, l < fresh m -> h' l = h l) ->
    map (fun e => (fst e, h' (snd e))) m
    = map (fun e => (fst e, h (snd e))) m.
Proof.
intros h h' m H. apply map_ext_in. intros e Hin.
now rewrite (H (snd e) (fresh_above m e Hin)).
Qed.

Lemma updateEthereumWallet_snapshot :
  forall (sdk : Sdk) (addr : string) (st : State) (r : BalanceResponse),
    truthy (Some addr) = true ->
    sdk (substrateOrMirrorIfEthereumNormalized addr) = Fulfilled r ->
    snapshot (fst (updateEthereumWallet (Some sdk) (Some addr) st))
    = Map_set (substrateOrMirrorIfEthereumNormalized addr)
              (ethereumRecord addr (Some (balance_of_response r)))
              (snapshot st).
Proof.
intros sdk addr st r Ht Hs.
rewrite (updateEthereumWallet_fulfilled sdk addr st r Ht Hs). cbn [fst].
rewrite accountsEffect_snapshot. unfold snapshot. cbn [heap accounts].
rewrite (Map_set_map loc Account
           (write (fresh (accounts st))
                  (ethereumRecord addr (Some (balance_of_response r)))
                  (heap st))).
rewrite write_same. f_equal.
apply snapshot_untouched_below_fresh. intros l Hl.
apply write_other. lia.
Qed.

(** X8.  On the snapshot, a successful [updateEthereumWallet] is exactly
    [Map.set] of the normalized address to the Ethereum record with the
    fetched balance.  Hence the last completed refresh wins: after two
    refreshes of the same address the snapshot is the one the second
    refresh alone would give, and refreshing twice with the same answer
    is the same as refreshing once. *)
Theorem ethereum_refresh_is_map_set :
  forall (sdk1 sdk2 : Sdk) (addr : string) (st : State)
         (r1 r2 : BalanceResponse),
    truthy (Some addr) = true ->
    sdk1 (substrateOrMirrorIfEthereumNormalized addr) = Fulfilled r1 ->
    sdk2 (substrateOrMirrorIfEthereumNormalized addr) = Fulfilled r2 ->
    let st1 := fst (updateEthereumWallet (Some sdk1) (Some addr) st) in
    snapshot st1
    = Map_set (substrateOrMirrorIfEthereumNormalized addr)
              (ethereumRecord addr (Some (balance_of_response r1)))
              (snapshot st)
    /\ snapshot (fst (updateEthereumWallet (Some sdk2) (Some addr) st1))
       = snapshot (fst (updateEthereumWallet (Some sdk2) (Some addr) st))
    /\ snapshot (fst (updateEthereumWallet (Some sdk1) (Some addr) st1))
       = snapshot st1.
Proof.
intros sdk1 sdk2 addr st r1 r2 Ht H1 H2 st1. subst st1.
split; [now apply updateEthereumWallet_snapshot|]. split.
- rewrite (updateEthereumWallet_snapshot sdk2 addr _ r2 Ht H2).
  rewrite (updateEthereumWallet_snapshot sdk1 addr st r1 Ht H1).
  rewrite (updateEthereumWallet_snapshot sdk2 addr st r2 Ht H2).
  apply Map_set_set.
- rewrite (updateEthereumWallet_snapshot sdk1 addr _ r1 Ht H1).
  rewrite (updateEthereumWallet_snapshot sdk1 addr st r1 Ht H1).
  apply Map_set_set.
Qed.

Lemma Map_set_middle :
  forall (V : Type) (pre rest : JSMap V) k v v0,
    ~ In k (Map_keys pre) ->
    Map_set k v (pre ++ (k, v0) :: rest) = pre ++ (k, v) :: rest.
Proof.
intros V. induction pre as [|[k1 v1] pre IH]; intros rest k v v0 Hnin;
  simpl in *.
- now rewrite String.eqb_refl.
- destruct (String.eqb k k1) eqn:E.
  + apply String.eqb_eq in E. subst. tauto.
  + f_equal. apply IH. tauto.
Qed.

Lemma fetchBalances_connected :
  forall (sdk : Sdk) es pre res,
    NoDup (map fst (pre ++ es)) ->
    fetchBalances sdk es (pre ++ es) = Fulfilled res ->
    res = pre ++ map (connected sdk) es.
Proof.
induction es as [|[k0 a0] es IH]; intros pre res Hnd Hres; simpl in *.
- inversion Hres. now rewrite !app_nil_r.
- unfold connected at 1. cbn [fst snd].
  destruct (sdk k0) as [r0|e0] eqn:E0; [|discriminate].
  assert (Hnin : ~ In k0 (Map_keys pre)).
  { rewrite map_app in Hnd. simpl in Hnd. apply NoDup_remove_2 in Hnd.
    intros Hin. apply Hnd. apply in_or_app. now left. }
  rewrite Map_set_middle in Hres by assumption.
  set (a0' := with_balance (Some (balance_of_response r0))
                           (with_signerType Polkadot a0)) in *.
  replace (pre ++ (k0, a0') :: es) with ((pre ++ [(k0, a0')]) ++ es)
    in Hres by (now rewrite <- app_assoc).
  rewrite (IH (pre ++ [(k0, a0')]) res);
    [now rewrite <- app_assoc| |exact Hres].
  rewrite <- app_assoc. simpl. rewrite map_app in *. exact Hnd.
Qed.

Lemma connected_keys : forall (sdk : Sdk) pa,
  map fst (map (connected sdk) pa) = map fst pa.
Proof.
intros sdk pa. rewrite map_map. apply map_ext. intros [k a].
unfold connected. cbn [fst]. now destruct (sdk k).
Qed.

Lemma setPolkadot_snapshot :
  forall (sdk : Sdk) (connectWallet : WalletCenter) walletName st pa,
    Map_wf (accounts st) -> Map_wf pa ->
    connectWallet (walletNameOrDefault walletName) = Fulfilled pa ->
    snd (setPolkadotAccountsWithBalance (Some sdk) connectWallet walletName st)
    = Fulfilled tt ->
    snapshot (fst (setPolkadotAccountsWithBalance (Some sdk) connectWallet
                     walletName st))
    = Map_set_all (map (connected sdk) pa) (snapshot st).
Proof.
intros sdk cw w st pa Hwf Hwfpa Hcw Hok.
destruct (setPolkadot_fulfilled sdk cw w st Hok)
  as (pa' & res & Hcw' & _ & Hres & Hst).
rewrite Hcw in Hcw'. inversion Hcw'; subst pa'.
assert (Eres : res = map (connected sdk) pa)
  by (apply (fetchBalances_connected sdk pa [] res); auto).
rewrite Hst, accountsEffect_snapshot. unfold snapshot. cbn [heap accounts].
unfold Map_of_entries. rewrite Map_set_all_app.
fold (Map_of_entries (accounts st)).
rewrite Map_of_entries_wf_id by assumption.
rewrite Map_set_all_map, alloc_all_snapshot, <- Eres. f_equal.
apply snapshot_untouched_below_fresh. intros l Hl.
now apply alloc_all_old.
Qed.

Lemma setPolkadot_outcome : forall sdk connectWallet walletName st1 st2,
  snd (setPolkadotAccountsWithBalance sdk connectWallet walletName st1)
  = snd (setPolkadotAccountsWithBalance sdk connectWallet walletName st2).
Proof.
intros sdk cw w st1 st2. unfold setPolkadotAccountsWithBalance.
destruct sdk as [sdk|]; auto.
destruct (cw (walletNameOrDefault w)) as [pa|e]; auto.
destruct (Map_size pa =? 0)%nat; auto.
destruct (fetchBalances sdk pa pa) as [res|e]; auto.
destruct (alloc_all (fresh (accounts st1)) res (heap st1)).
now destruct (alloc_all (fresh (accounts st2)) res (heap st2)).
Qed.

(** X9.  On the snapshot, a successful connect is the merge
    [new Map([...prev, ...polkadotAccounts])]: every returned entry is
    set, in the wallet's order, to the returned record with type
    Polkadot and the fetched balance.  Connecting the same wallet again
    with the same answers changes nothing in the snapshot. *)
Theorem connect_is_map_merge :
  forall (sdk : Sdk) (connectWallet : WalletCenter) walletName st pa,
    Map_wf (accounts st) -> Map_wf pa ->
    connectWallet (walletNameOrDefault walletName) = Fulfilled pa ->
    snd (setPolkadotAccountsWithBalance (Some sdk) connectWallet walletName st)
    = Fulfilled tt ->
    let st1 := fst (setPolkadotAccountsWithBalance (Some sdk) connectWallet
                      walletName st) in
    snapshot st1 = Map_set_all (map (connected sdk) pa) (snapshot st)
    /\ snapshot (fst (setPolkadotAccountsWithBalance (Some sdk)
                        connectWallet walletName st1))
       = snapshot st1.
Proof.
intros sdk cw w st pa Hwf Hwfpa Hcw Hok st1.
assert (H1 : snapshot st1
             = Map_set_all (map (connected sdk) pa) (snapshot st))
  by (subst st1; now apply setPolkadot_snapshot).
split; [exact H1|].
assert (Hwf1 : Map_wf (accounts st1))
  by (subst st1; now apply setPolkadot_wf).
assert (Hok1 : snd (setPolkadotAccountsWithBalance (Some sdk) cw w st1)
               = Fulfilled tt)
  by (now rewrite (setPolkadot_outcome (Some sdk) cw w st1 st)).
rewrite (setPolkadot_snapshot sdk cw w st1 pa Hwf1 Hwfpa Hcw Hok1), H1.
apply Map_set_all_twice.
- unfold Map_wf. fold (Map_keys (snapshot st)).
  unfold Map_keys. now rewrite snapshot_keys.
- now rewrite connected_keys.
Qed.

(** X10.  A connect that does not fulfil leaves the map, its records,
    the selected index and the storage as they were.  When the wallet
    returns no account the call alerts and rejects with the message
    naming the wallet; when the wallet itself rejects, its error is the
    rejection; without [sdk] the call does nothing. *)
Theorem connect_without_success_changes_nothing :
  forall (sdk : option Sdk) (connectWallet : WalletCenter) walletName st,
    let res := setPolkadotAccountsWithBalance sdk connectWallet walletName
                 st in
    (forall e, snd res = Rejected e ->
               snapshot (fst res) = snapshot st
               /\ selectedAccountId (fst res) = selectedAccountId st
               /\ localStorage (fst res) = localStorage st)
    /\ (forall sdk',
          sdk = Some sdk' ->
          connectWallet (walletNameOrDefault walletName) = Fulfilled [] ->
          res = (logged (Alert (noAccountsMessage
                                  (walletNameOrDefault walletName))) st,
                 Rejected (noAccountsMessage
                             (walletNameOrDefault walletName))))
    /\ (forall sdk' e,
          sdk = Some sdk' ->
          connectWallet (walletNameOrDefault walletName) = Rejected e ->
          res = (st, Rejected e))
    /\ (sdk = None -> res = (st, Fulfilled tt)).
Proof.
intros sdk cw w st res. subst res. split; [|split; [|split]].
- intros e He.
  destruct (setPolkadot_cases sdk cw w st)
    as [(Ha & Hh & Hi & Hs)|(sdk' & Es & Hok)].
  + unfold snapshot. now rewrite Ha, Hh.
  + subst sdk. rewrite Hok in He. discriminate.
- intros sdk' Es Hcw. subst sdk. unfold setPolkadotAccountsWithBalance.
  now rewrite Hcw.
- intros sdk' e Es Hcw. subst sdk. unfold setPolkadotAccountsWithBalance.
  now rewrite Hcw.
- intros ->. reflexivity.
Qed.

(* ------------------------------------------------------------------ *)
(** ** The saved snapshot follows the registry *)

Lemma notEthereumEntry_entry : forall k a,
  SignerTypeEnum_value Polkadot <> SignerTypeEnum_value Ethereum ->
  notEthereumEntry (JArr [JStr k; Account_toJSON a])
  = Some (notEthereum (k, a)).
Proof.
intros k a Htag. unfold notEthereumEntry, Account_toJSON, notEthereum,
  isEthereum. cbn [app member String.eqb Ascii.eqb Bool.eqb snd].
destruct (signerType a); cbn [SignerTypeEnum_eqb negb].
- now rewrite String.eqb_refl.
- apply String.eqb_neq in Htag. now rewrite Htag.
Qed.

Lemma filterNotEthereum_entries : forall es,
  SignerTypeEnum_value Polkadot <> SignerTypeEnum_value Ethereum ->
  filterNotEthereum
    (map (fun e => JArr [JStr (fst e); Account_toJSON (snd e)]) es)
  = Some (map (fun e => JArr [JStr (fst e); Account_toJSON (snd e)])
              (filter notEthereum es)).
Proof.
intros es Htag. induction es as [|[k a] es IH]; auto.
cbn [map filterNotEthereum fst snd filter].
rewrite (notEthereumEntry_entry k a Htag), IH.
now destruct (notEthereum (k, a)).
Qed.

(** X11.  If the ['accounts'] slot holds the serialization of the
    registry and [JSON.parse] reads that text back, then after the
    purge the slot holds the serialization of the purged registry, also
    when the purge leaves the map empty (the effect of line 72 writes
    nothing then): the rewrite of lines 189-200 drops the same entries
    as the state update.  Nothing is logged. *)
Theorem purge_keeps_saved_snapshot_in_step :
  forall (address : option string) (st : State),
    truthy address = false ->
    Map_wf (accounts st) ->
    SignerTypeEnum_value Polkadot <> SignerTypeEnum_value Ethereum ->
    persisted st ->
    JSON_stringify (entries_toJSON (snapshot st)) <> "" ->
    JSON_parse (JSON_stringify (entries_toJSON (snapshot st)))
    = Some (entries_toJSON (snapshot st)) ->
    persisted (disconnectEffect address st)
    /\ console (disconnectEffect address st) = console st.
Proof.
intros address st Ht Hwf Htag Hp Hne Hparse.
assert (Htr : truthy (Some (JSON_stringify (entries_toJSON (snapshot st))))
              = true).
{ destruct (JSON_stringify (entries_toJSON (snapshot st)));
    [congruence|reflexivity]. }
set (purged := mkState (heap st) (deleteEthereum (heap st) (accounts st))
                 (selectedAccountId st)
                 (setItem "accounts"
                    (JSON_stringify
                       (entries_toJSON (filter notEthereum (snapshot st))))
                    (localStorage st))
                 (console st)).
assert (E : disconnectEffect address st = accountsEffect purged).
{ unfold disconnectEffect. rewrite Ht. unfold persisted in Hp.
  rewrite Hp, Htr, Hparse. unfold entries_toJSON.
  now rewrite (filterNotEthereum_entries (snapshot st) Htag). }
assert (Hsnap : snapshot purged = filter notEthereum (snapshot st)).
{ unfold snapshot, purged. cbn [heap accounts].
  rewrite deleteEthereum_filter by assumption.
  symmetry. apply filter_map_swap. }
rewrite E. split; [|now rewrite accountsEffect_console].
unfold persisted.
rewrite accountsEffect_storage, accountsEffect_snapshot, Hsnap.
now destruct ((0 <? Map_size (accounts purged))%nat
              && String.eqb "accounts" "accounts").
Qed.

(** X14.  When the saved snapshot cannot be rewritten by the purge
    (it is not JSON, not an array, or one of its elements cannot be read
    as a [[key, account]] pair), the failure is caught: one line is
    logged, the in-memory purge still takes place, and the slot is left
    as it was unless the remaining map is non-empty and is saved by the
    effect of line 72. *)
Theorem purge_survives_unreadable_saved_snapshot :
  forall (address : option string) (st : State) (saved : string),
    truthy address = false ->
    Map_wf (accounts st) ->
    getItem "accounts" (localStorage st) = Some saved ->
    saved <> "" ->
    match JSON_parse saved with
    | Some (JArr items) => filterNotEthereum items = None
    | _ => True
    end ->
    let st' := disconnectEffect address st in
    console st'
    = console st
      ++ [ConsoleError "Failed to filter Ethereum accounts from localStorage"]
    /\ snapshot st' = filter notEthereum (snapshot st)
    /\ (accounts st' = [] -> localStorage st' = localStorage st)
    /\ (accounts st' <> [] -> persisted st').
Proof.
intros address st saved Ht Hwf Hsaved Hne Hbad st'.
assert (Htr : truthy (Some saved) = true)
  by (destruct saved; [congruence|reflexivity]).
set (purged := mkState (heap st) (deleteEthereum (heap st) (accounts st))
                 (selectedAccountId st) (localStorage st)
                 (console st
                  ++ [ConsoleError
                   "Failed to filter Ethereum accounts from localStorage"])).
assert (E : st' = accountsEffect purged).
{ subst st'. unfold disconnectEffect. rewrite Ht, Hsaved, Htr.
  destruct (JSON_parse saved) as [[| | | |items|]|]; try reflexivity.
  now rewrite Hbad. }
rewrite E.
rewrite accountsEffect_console, accountsEffect_accounts.
split; [reflexivity|]. split; [|split].
- rewrite <- E. subst st'. now apply disconnectEffect_snapshot.
- intros Hempty. now rewrite accountsEffect_empty.
- intros Hnonempty. now apply accountsEffect_persisted.
Qed.

Lemma setSelectedAccountId_persisted : forall id st,
  persisted st -> persisted (setSelectedAccountId id st).
Proof.
intros id st Hp. unfold persisted in *.
destruct (setSelectedAccountId_fields id st) as (Hh & Ha & _).
assert (Hs : snapshot (setSelectedAccountId id st) = snapshot st)
  by (unfold snapshot; now rewrite Hh, Ha).
rewrite Hs, <- Hp. unfold setSelectedAccountId.
destruct (selectedAccountId st =? id)%Z; reflexivity.
Qed.

Lemma run_persisted : forall op app,
  (accounts (registry app) <> [] -> persisted (registry app)) ->
  accounts (registry (run op app)) <> [] -> persisted (registry (run op app)).
Proof.
intros op [a st] Hinv. cbn [registry] in Hinv.
assert (Hupdate : forall sdk address s,
          (accounts s <> [] -> persisted s) ->
          accounts (fst (updateEthereumWallet sdk address s)) <> [] ->
          persisted (fst (updateEthereumWallet sdk address s))).
{ intros sdk address s Hs.
  destruct (updateEthereumWallet_unchanged sdk address s)
    as [E|(sdk' & addr & r & Es & Ea & Ht & Hr)]; [now rewrite E|].
  subst. rewrite (updateEthereumWallet_fulfilled sdk' addr s r Ht Hr).
  cbn [fst]. intros _. apply accountsEffect_persisted. cbn [accounts].
  apply Map_set_nonempty. }
assert (Hpurge : forall address,
          accounts (disconnectEffect address st) <> [] ->
          persisted (disconnectEffect address st)).
{ intros address. destruct (truthy address) eqn:Ht.
  - now rewrite disconnectEffect_connected.
  - intros Hne. unfold disconnectEffect in *. rewrite Ht in *.
    apply accountsEffect_persisted.
    now rewrite accountsEffect_accounts in Hne. }
destruct op as [address sdk|sdk|sdk cw w|sdk wallets| |id|address
                |address sdk];
  cbn [run registry active].
7: now apply Hpurge.
7: now apply Hupdate.
- apply Hupdate. destruct (truthy address) eqn:Ht.
  + now rewrite disconnectEffect_connected.
  + intros Hne. unfold disconnectEffect in *. rewrite Ht in *.
    apply accountsEffect_persisted.
    now rewrite accountsEffect_accounts in Hne.
- now apply Hupdate.
- destruct (setPolkadot_cases sdk cw w st)
    as [(Ha & Hh & _ & Hs)|(sdk' & Es & Hok)].
  + intros Hne. unfold persisted, snapshot. rewrite Hs, Ha, Hh.
    apply Hinv. now rewrite <- Ha.
  + subst sdk. intros _. now apply setPolkadot_persisted.
- destruct sdk as [sdk|]; [|exact Hinv].
  destruct (accounts st) as [|e0 m] eqn:Eacc.
  + rewrite (reinitialize_nothing_registered (Some sdk) wallets st Eacc).
    cbn [fst]. now rewrite Eacc.
  + intros _. apply reinitialize_persisted. congruence.
- rewrite clearAccounts_empty. congruence.
- destruct (setSelectedAccountId_fields id st) as (_ & Ha & _).
  rewrite Ha. intros Hne. apply setSelectedAccountId_persisted. auto.
Qed.

Lemma restoreEffect_persisted : forall st,
  (accounts st <> [] -> persisted st) ->
  accounts (restoreEffect st) <> [] -> persisted (restoreEffect st).
Proof.
intros st Hinv. unfold restoreEffect.
destruct (truthy (getItem "accounts" (localStorage st))); cbn [negb].
- destruct (getItem "accounts" (localStorage st)) as [s|]; auto.
  destruct (JSON_parse s) as [doc|]; auto.
  destruct (entries_of_json doc) as [es|]; auto.
  destruct (alloc_all (fresh (accounts st)) es (heap st)) as [h' ls].
  intros Hne. apply accountsEffect_persisted.
  now rewrite accountsEffect_accounts in Hne.
- rewrite accountsEffect_empty by reflexivity.
  destruct (selectedAccountId st =? 0)%Z; intros H; now elim H.
Qed.

(** X12.  The saved snapshot never lags behind a non-empty registry:
    after the restore effect of the first render and any sequence of
    events, whenever [accounts] is not empty the ['accounts'] slot holds
    [JSON.stringify] of its current entries, in-place refreshes of
    signers and balances included. *)
Theorem saved_snapshot_follows_registry :
  forall (ops : list Op) (a : option string) (h : Heap) (storage : Storage)
         (id : Z),
    let st :=
      registry (runAll ops
                  (mkApp a (restoreEffect (initialState h storage id)))) in
    accounts st <> [] -> persisted st.
Proof.
intros ops a h storage id.
assert (H : forall ops app,
          (accounts (registry app) <> [] -> persisted (registry app)) ->
          accounts (registry (runAll ops app)) <> [] ->
          persisted (registry (runAll ops app))).
{ unfold runAll. clear ops.
  induction ops as [|op ops IH]; intros app Hinv; simpl; auto.
  apply IH. now apply run_persisted. }
apply H. cbn [registry]. apply restoreEffect_persisted.
intros Hne. now elim Hne.
Qed.

(** X13.  Selection by position and lookup by address agree: the
    selected record is the record registered under the address found at
    the selected position. *)
Theorem selected_record_is_registered_under_selected_address :
  forall (st : State),
    Map_wf (accounts st) ->
    selectedAccount st
    = match selectedAddress st with
      | Some k => Map_get k (snapshot st)
      | None => None
      end.
Proof.
intros st Hwf. unfold selectedAccount, selectedAddress, Map_values, Map_keys.
destruct (0 <=? selectedAccountId st)%Z; auto.
generalize (Z.to_nat (selectedAccountId st)) as n. intros n.
rewrite nth_error_map.
destruct (nth_error (accounts st) n) as [[k l]|] eqn:E.
- rewrite (map_nth_error fst n (accounts st) E). cbn [fst].
  rewrite (map_nth_error snd n (accounts st) E). cbn [snd option_map].
  unfold snapshot. rewrite snapshot_get.
  apply nth_error_In in E. now rewrite (In_Map_get _ _ k l Hwf E).
- apply nth_error_None in E.
  replace (nth_error (map snd (accounts st)) n) with (@None loc)
    by (symmetry; apply nth_error_None; now rewrite length_map).
  replace (nth_error (map fst (accounts st)) n) with (@None string)
    by (symmetry; apply nth_error_None; now rewrite length_map).
  reflexivity.
Qed.

End ProviderMore.

(* ------------------------------------------------------------------ *)
(** ** The further properties on concrete registries *)

Section MoreExamples.
Import Example.

Ltac keys_distinct :=
  unfold Map_wf; simpl;
  repeat (constructor; [simpl; intuition discriminate|]); constructor.

(** One Ethereum record after two Polkadot records: the purge leaves
    the two Polkadot records as they were. *)
Lemma purge_removes_exactly_ethereum_witness :
  ethereumCount Reload.mixed = 1
  /\ snapshot (disconnectEffect None Reload.mixed) = snapshot two.
Proof.
split; [reflexivity|].
assert (Hwf : Map_wf (accounts Reload.mixed)) by keys_distinct.
destruct (purge_removes_exactly_ethereum (RT := runtime) None Reload.mixed
            eq_refl Hwf) as (H & _).
rewrite H. reflexivity.
Defined.

(** Bob is selected; four more accounts are connected; Bob is still
    the selected address. *)
Lemma upserts_keep_positions_witness :
  selectedAddress (setSelectedAccountId 1 two) = Some "5Bob"
  /\ selectedAddress
       (fst (setPolkadotAccountsWithBalance (Some sdkOne)
               (fun _ => Fulfilled fourAccounts) None
               (setSelectedAccountId 1 two)))
     = Some "5Bob".
Proof.
split; [reflexivity|].
assert (Hwf : Map_wf (accounts (setSelectedAccountId 1 two)))
  by keys_distinct.
destruct (upserts_keep_positions (RT := runtime)
            (setSelectedAccountId 1 two) Hwf) as (_ & Hconnect & _).
apply (Hconnect (Some sdkOne) (fun _ => Fulfilled fourAccounts) None "5Bob").
reflexivity.
Defined.

Lemma clear_resets_registry_and_storage_witness :
  getItem "selectedAccountId" (localStorage (clearAccounts six)) = Some "0"
  /\ getItem "selectedAccountId" (localStorage (clearAccounts two)) = None
  /\ getItem "theme" (localStorage (clearAccounts six))
     = getItem "theme" (localStorage six).
Proof.
destruct (clear_resets_registry_and_storage (RT := runtime) six)
  as (_ & _ & _ & _ & _ & H6 & Hother).
destruct (clear_resets_registry_and_storage (RT := runtime) two)
  as (_ & _ & _ & _ & _ & H2 & _).
split; [exact H6|]. split; [exact H2|].
apply Hother; discriminate.
Defined.

Lemma restore_reads_saved_entries_witness :
  snapshot (restoreEffect (RT := Reload.runtime) Reload.afterReload)
  = Reload.reloadedEntries
  /\ selectedAccountId
       (restoreEffect (RT := Reload.runtime) Reload.afterReload) = 1%Z.
Proof.
assert (Hne : Reload.savedMixed <> "") by (vm_compute; discriminate).
destruct (restore_reads_saved_entries (RT := Reload.runtime)
            Reload.afterReload Reload.savedMixed
            (entries_toJSON (RT := Reload.runtime) (snapshot Reload.mixed))
            eq_refl Hne eq_refl) as [Hok _].
destruct (Hok Reload.reloadedEntries eq_refl) as (Hs & Hi & _).
split; [rewrite Hs; reflexivity|exact Hi].
Defined.

Lemma reinitialize_only_refreshes_signer_and_balance_witness :
  selectedAccountId (fst (reinitializePolkadotAccountsWithBalance
                            (Some sdkOne) extensions reloaded)) = 0%Z
  /\ name (heap (fst (reinitializePolkadotAccountsWithBalance (Some sdkOne)
                        extensions reloaded)) 1) = "Alice".
Proof.
destruct (reinitialize_only_refreshes_signer_and_balance (RT := runtime)
            (Some sdkOne) extensions reloaded) as (Hi & Hl).
split; [exact Hi|].
destruct (Hl 1) as ((_ & _ & Hn & _) & _). rewrite Hn. reflexivity.
Defined.

Lemma ethereum_refresh_is_map_set_witness :
  snapshot (fst (updateEthereumWallet (Some sdkOne) (Some "0xA")
                   Reload.mixed))
  = snapshot Reload.mixed.
Proof.
destruct (ethereum_refresh_is_map_set (RT := runtime) sdkOne sdkOne "0xA"
            two oneUnique oneUnique eq_refl eq_refl eq_refl)
  as (_ & _ & H).
exact H.
Defined.

Lemma connect_is_map_merge_witness :
  snapshot (fst (setPolkadotAccountsWithBalance (Some sdkOne)
                   (fun _ => Fulfilled twoAccounts) None two))
  = snapshot two.
Proof.
assert (Hwf : Map_wf (accounts start)) by constructor.
assert (Hpa : Map_wf twoAccounts) by keys_distinct.
destruct (connect_is_map_merge (RT := runtime) sdkOne
            (fun _ => Fulfilled twoAccounts) None start twoAccounts
            Hwf Hpa eq_refl eq_refl) as (_ & H).
exact H.
Defined.

Lemma connect_without_success_changes_nothing_witness :
  setPolkadotAccountsWithBalance (Some sdkOne) (fun _ => Fulfilled [])
    (Some "talisman") two
  = (logged (Alert
               "No talisman accounts found or access denied for this domain")
            two,
     Rejected "No talisman accounts found or access denied for this domain").
Proof.
destruct (connect_without_success_changes_nothing (RT := runtime)
            (Some sdkOne) (fun _ => Fulfilled []) (Some "talisman") two)
  as (_ & Hempty & _).
exact (Hempty sdkOne eq_refl eq_refl).
Defined.

Lemma purge_keeps_saved_snapshot_in_step_witness :
  persisted (RT := Reload.runtime)
    (disconnectEffect (RT := Reload.runtime) None Reload.mixed).
Proof.
assert (Hwf : Map_wf (accounts Reload.mixed)) by keys_distinct.
assert (Hne : JSON_stringify (Runtime := Reload.runtime)
                (entries_toJSON (RT := Reload.runtime)
                   (snapshot Reload.mixed)) <> "")
  by (vm_compute; discriminate).
apply (purge_keeps_saved_snapshot_in_step (RT := Reload.runtime) None
         Reload.mixed eq_refl Hwf).
- discriminate.
- reflexivity.
- exact Hne.
- reflexivity.
Defined.

Lemma saved_snapshot_follows_registry_witness :
  persisted
    (registry (runAll session
                 (mkApp None
                    (restoreEffect (initialState (heap start) emptyStorage
                                      0))))).
Proof.
apply (saved_snapshot_follows_registry (RT := runtime) session None
         (heap start) emptyStorage 0).
vm_compute. discriminate.
Defined.

Lemma selected_record_is_registered_under_selected_address_witness :
  selectedAddress six = Some "5Frank"
  /\ selectedAccount six = Map_get "5Frank" (snapshot six).
Proof.
split; [reflexivity|].
assert (Hwf : Map_wf (accounts six)) by keys_distinct.
rewrite (selected_record_is_registered_under_selected_address six Hwf).
reflexivity.
Defined.

Lemma purge_survives_unreadable_saved_snapshot_witness :
  console (disconnectEffect None Reload.mixed)
  = [ConsoleError "Failed to filter Ethereum accounts from localStorage"]
  /\ persisted (disconnectEffect None Reload.mixed).
Proof.
assert (Hwf : Map_wf (accounts Reload.mixed)) by keys_distinct.
assert (Hne : Reload.savedMixed <> "") by (vm_compute; discriminate).
destruct (purge_survives_unreadable_saved_snapshot (RT := runtime) None
            Reload.mixed Reload.savedMixed eq_refl Hwf eq_refl Hne I)
  as (Hlog & _ & _ & Hp).
split; [exact Hlog|]. apply Hp. vm_compute. discriminate.
Defined.

End MoreExamples.

(* ------------------------------------------------------------------ *)
(** * Balances, Ethereum records and refreshes *)

(** ** The arithmetic of a balance *)

(** The decimal notation of a natural number. *)
Lemma decimal_of_nat_examples :
  NilZero.string_of_uint (Nat.to_uint 0) = "0"
  /\ NilZero.string_of_uint (Nat.to_uint 1500) = "1500".
Proof. split; reflexivity. Qed.

(** [Number] reads the decimal notation of every natural number below
    [4096] as the double that stands for that number. *)
Lemma Number_reads_decimal : forall n : nat,
  n < 4096 ->
  integerValue (Number (NilZero.string_of_uint (Nat.to_uint n)))
  = Some (Z.of_nat n).
Proof.
assert (H : forallb
              (fun n =>
                 match integerValue
                         (Number (NilZero.string_of_uint (Nat.to_uint n)))
                 with
                 | Some z => Z.eqb z (Z.of_nat n)
                 | None => false
                 end) (seq 0 4096) = true)
  by (vm_compute; reflexivity).
intros n Hn. rewrite forallb_forall in H.
specialize (H n (proj2 (in_seq 4096 0 n) (conj (Nat.le_0_l n) Hn))).
destruct (integerValue (Number (NilZero.string_of_uint (Nat.to_uint n))))
  as [z|]; [|discriminate].
apply Z.eqb_eq in H. now subst.
Qed.

(** [Math.pow(10, n)] is the exact power up to [10^22]. *)
Lemma Math_pow10_exact : forall n : nat,
  n <= 22 -> integerValue (Math_pow10 n) = Some (10 ^ Z.of_nat n)%Z.
Proof.
assert (H : forallb
              (fun n =>
                 match integerValue (Math_pow10 n) with
                 | Some z => Z.eqb z (10 ^ Z.of_nat n)
                 | None => false
                 end) (seq 0 23) = true)
  by (vm_compute; reflexivity).
intros n Hn. rewrite forallb_forall in H.
assert (Hin : In n (seq 0 23)) by (apply in_seq; lia).
specialize (H n Hin).
destruct (integerValue (Math_pow10 n)) as [z|]; [|discriminate].
apply Z.eqb_eq in H. now subst.
Qed.

(** The quotient of the two doubles is the double nearest to the exact
    quotient: it is what [Number] reads in the scientific notation
    [<available>e-<decimals>]. *)
Lemma quotient_is_nearest_double : forall n d : nat,
  n < 400 -> d <= 22 ->
  PrimFloat.eqb
    (PrimFloat.div (Number (NilZero.string_of_uint (Nat.to_uint n)))
                   (Math_pow10 d))
    (Number (NilZero.string_of_uint (Nat.to_uint n) ++ "e-"
             ++ NilZero.string_of_uint (Nat.to_uint d)))
  = true.
Proof.
assert (H : forallb
              (fun n =>
                 forallb
                   (fun d =>
                      PrimFloat.eqb
                        (PrimFloat.div
                           (Number (NilZero.string_of_uint (Nat.to_uint n)))
                           (Math_pow10 d))
                        (Number (NilZero.string_of_uint (Nat.to_uint n)
                                 ++ "e-"
                                 ++ NilZero.string_of_uint (Nat.to_uint d))))
                   (seq 0 23)) (seq 0 400) = true)
  by (vm_compute; reflexivity).
intros n d Hn Hd. rewrite forallb_forall in H.
assert (Hin : In n (seq 0 400)) by (apply in_seq; lia).
specialize (H n Hin). rewrite forallb_forall in H.
apply H. apply in_seq. lia.
Qed.

(** The values of the worked examples: [1.5] units of a token with 18
    decimals, [2.5] units of one with 6, a balance without decimals, and
    one that is not a binary fraction. *)
Lemma balance_examples :
  PrimFloat.div (Number "1500000000000000000") (Math_pow10 18) = 1.5%float
  /\ PrimFloat.div (Number "2500000") (Math_pow10 6) = 2.5%float
  /\ PrimFloat.div (Number "7") (Math_pow10 0) = 7%float
  /\ PrimFloat.div (Number "375") (Math_pow10 3) = 0.375%float
  /\ PrimFloat.div (Number "1") (Math_pow10 1) = 0x1.999999999999ap-4%float
  /\ PrimFloat.div (Number "") (Math_pow10 12) = 0%float
  /\ PrimFloat.is_nan (PrimFloat.div (Number "n/a") (Math_pow10 12)) = true.
Proof. repeat split; vm_compute; reflexivity. Qed.

(** Texts other than runs of digits, as [Number] reads them. *)
Lemma Number_examples :
  Number " 42 " = 42%float
  /\ Number "-2" = (-2)%float
  /\ Number "+.5e1" = 5%float
  /\ Number "0x1F" = 31%float
  /\ Number "1e3" = 1000%float
  /\ Number "9007199254740993" = 9007199254740992%float
  /\ Number "Infinity" = infinity
  /\ PrimFloat.is_nan (Number "1 2") = true
  /\ PrimFloat.is_nan (Number "0x") = true
  /\ PrimFloat.is_nan (Number "1e") = true.
Proof. repeat split; vm_compute; reflexivity. Qed.

Section ListCount.
Variable A : Type.

Lemma two_marked_entries :
  forall (P : string * A -> bool) (m : JSMap A) k1 v1 k2 v2,
    Map_get k1 m = Some v1 -> Map_get k2 m = Some v2 -> k1 <> k2 ->
    P (k1, v1) = true -> P (k2, v2) = true ->
    2 <= length (filter P m).
Proof.
intros P m k1 v1 k2 v2 H1 H2 Hne P1 P2.
apply Map_get_In in H1. apply Map_get_In in H2.
change 2 with (length [(k1, v1); (k2, v2)]).
apply NoDup_incl_length.
- constructor; [|constructor; [intros []|constructor]].
  intros [E|[]]. inversion E. congruence.
- intros e [<-|[<-|[]]]; apply filter_In; auto.
Qed.

End ListCount.

Section RecordsAndBalances.
Context {RT : Runtime}.

(* ------------------------------------------------------------------ *)
(** ** Ethereum records are as the refresh creates them *)

Lemma ethereumAsCreated_spec : forall st,
  ethereumAsCreated st = true
  <-> (forall k l,
         In (k, l) (accounts st) -> isEthereum (heap st l) = true ->
         asCreated (heap st l) = true).
Proof.
intros st. unfold ethereumAsCreated, snapshot. rewrite forallb_forall.
split.
- intros H k l Hin HE. specialize (H (k, heap st l)).
  cbn [snd] in H. rewrite HE in H. apply H.
  apply in_map_iff. exists (k, l). auto.
- intros H [k a] Hin. apply in_map_iff in Hin.
  destruct Hin as [[k' l] [E Hin]]. inversion E; subst. cbn [snd].
  destruct (isEthereum (heap st l)) eqn:HE; auto.
  eapply H; eauto.
Qed.

Lemma ethereumAsCreated_update : forall sdk address st,
  ethereumAsCreated st = true ->
  ethereumAsCreated (fst (updateEthereumWallet sdk address st)) = true.
Proof.
intros sdk address st H.
destruct (updateEthereumWallet_unchanged sdk address st)
  as [E|(sdk' & addr & r & Es & Ea & Ht & Hr)]; [now rewrite E|].
subst. unfold ethereumAsCreated in *.
rewrite (updateEthereumWallet_snapshot sdk' addr st r Ht Hr).
rewrite forallb_forall in *. intros e He.
apply In_Map_set in He. destruct He as [He|He]; [now subst|auto].
Qed.

Lemma ethereumAsCreated_connect :
  forall sdk (connectWallet : WalletCenter) walletName st,
    returnsMaps connectWallet ->
    ethereumAsCreated st = true ->
    ethereumAsCreated
      (fst (setPolkadotAccountsWithBalance sdk connectWallet walletName st))
    = true.
Proof.
intros sdk cw w st Hmaps H.
destruct (setPolkadot_cases sdk cw w st)
  as [(Ha & Hh & _)|(sdk' & Es & Hok)].
- apply ethereumAsCreated_spec. intros k l. rewrite Ha, Hh.
  now apply ethereumAsCreated_spec.
- subst sdk.
  destruct (setPolkadot_fulfilled sdk' cw w st Hok)
    as (pa & res & Hcw & _ & Hres & Hst).
  apply ethereumAsCreated_spec. rewrite Hst. intros k l.
  rewrite accountsEffect_accounts, accountsEffect_heap.
  cbn [accounts heap]. intros Hin HE.
  apply In_Map_set_all in Hin. destruct Hin as [Hin|[]].
  apply in_app_or in Hin. destruct Hin as [Hin|Hin].
  + apply fresh_above in Hin as Hlt. simpl in Hlt.
    rewrite alloc_all_old in * by exact Hlt.
    now apply (proj1 (ethereumAsCreated_spec st) H k l).
  + apply alloc_all_new in Hin.
    apply (fetchBalances_polkadot sdk' pa res k _ (Hmaps _ _ Hcw) Hres)
      in Hin.
    unfold isEthereum in HE. rewrite Hin in HE. discriminate.
Qed.

Lemma reinitialize_entries :
  forall (sdk : option Sdk) (wallets : WalletExtensions) (st : State) e,
    In e (accounts (fst (reinitializePolkadotAccountsWithBalance sdk wallets
                           st))) ->
    In e (accounts st).
Proof.
intros sdk wallets st e. unfold reinitializePolkadotAccountsWithBalance.
destruct sdk as [sdk|]; auto.
destruct (Map_size (accounts st) =? 0)%nat; auto.
assert (Hupd : forall e',
          In e' (snd (fst (reinitializeLoop sdk wallets st))) ->
          In e' (accounts st)).
{ intros e' He.
  destruct (reinitialize_loop_updated sdk wallets (accounts st) (heap st) []
              (console st) e' He) as [[]|H]; auto. }
destruct (reinitializeLoop sdk wallets st) as [[h u] log].
cbn [fst snd] in *. rewrite accountsEffect_accounts. cbn [accounts].
intros Hin. apply In_Map_set_all in Hin. destruct Hin; auto.
Qed.

Lemma ethereumAsCreated_reinitialize :
  forall (sdk : option Sdk) (wallets : WalletExtensions) (st : State),
    ethereumAsCreated st = true ->
    ethereumAsCreated
      (fst (reinitializePolkadotAccountsWithBalance sdk wallets st)) = true.
Proof.
intros sdk wallets st H. apply ethereumAsCreated_spec. intros k l Hin.
apply reinitialize_entries in Hin.
destruct sdk as [sdk|];
  [|now apply (proj1 (ethereumAsCreated_spec st) H k l)].
rewrite reinitialize_heap.
destruct (reinitializeRecords_frame sdk wallets (keysAt l (accounts st))
            (heap st l)) as (_ & HT & _).
cbn zeta in HT. unfold isEthereum at 1. rewrite HT.
fold (isEthereum (heap st l)). intros HE.
rewrite reinitializeRecords_shape.
assert (HP : isPolkadot (heap st l) = false).
{ unfold isEthereum in HE. unfold isPolkadot.
  destruct (signerType (heap st l)); [reflexivity|discriminate]. }
rewrite HP. now apply (proj1 (ethereumAsCreated_spec st) H k l).
Qed.

Lemma ethereumAsCreated_purge : forall address st,
  Map_wf (accounts st) ->
  ethereumAsCreated st = true ->
  ethereumAsCreated (disconnectEffect address st) = true.
Proof.
intros address st Hwf H. destruct (truthy address) eqn:Ht.
- now rewrite disconnectEffect_connected.
- unfold ethereumAsCreated.
  rewrite (disconnectEffect_snapshot address st Ht Hwf).
  apply forallb_forall. intros e He. apply filter_In in He.
  destruct He as [_ He]. unfold notEthereum in He. now rewrite He.
Qed.

Lemma ethereumAsCreated_clear : forall st,
  ethereumAsCreated (clearAccounts st) = true.
Proof.
intros st. unfold ethereumAsCreated, snapshot.
now rewrite clearAccounts_empty.
Qed.

Lemma ethereumAsCreated_select : forall id st,
  ethereumAsCreated st = true ->
  ethereumAsCreated (setSelectedAccountId id st) = true.
Proof.
intros id st H. destruct (setSelectedAccountId_fields id st) as (Hh & Ha & _).
apply ethereumAsCreated_spec. intros k l. rewrite Ha, Hh.
now apply ethereumAsCreated_spec.
Qed.

(** A reload keeps the property when the saved Ethereum entries are as
    the provider saved them. *)
Lemma ethereumAsCreated_restore : forall st,
  ethereumAsCreated st = true ->
  (forall saved doc es k a,
     getItem "accounts" (localStorage st) = Some saved ->
     JSON_parse saved = Some doc -> entries_of_json doc = Some es ->
     In (k, a) es -> isEthereum a = true -> asCreated a = true) ->
  ethereumAsCreated (restoreEffect st) = true.
Proof.
intros st H Hsaved. unfold restoreEffect.
destruct (truthy (getItem "accounts" (localStorage st))); cbn [negb].
- destruct (getItem "accounts" (localStorage st)) as [saved|] eqn:Eg; auto.
  destruct (JSON_parse saved) as [doc|] eqn:Ep; auto.
  destruct (entries_of_json doc) as [es|] eqn:Ee; auto.
  pose proof (alloc_all_new es (fresh (accounts st)) (heap st)) as Hnew.
  destruct (alloc_all (fresh (accounts st)) es (heap st)) as [h ls].
  cbn [fst snd] in Hnew.
  apply ethereumAsCreated_spec. intros k l.
  rewrite accountsEffect_accounts, accountsEffect_heap.
  cbn [accounts heap]. intros Hin HE.
  apply In_Map_set_all in Hin. destruct Hin as [Hin|[]].
  apply Hnew in Hin.
  exact (Hsaved saved doc es k (h l) eq_refl Ep Ee Hin HE).
- assert (E : snapshot
                (accountsEffect
                   (mkState (heap st) [] 0%Z (localStorage st) (console st)))
              = [])
    by (now rewrite accountsEffect_snapshot).
  destruct (selectedAccountId st =? 0)%Z; unfold ethereumAsCreated;
    [now rewrite E|].
  unfold selectedAccountIdEffect, stored, snapshot in *. cbn [heap accounts] in *.
  now rewrite E.
Qed.

Lemma run_wf : forall op app,
  Map_wf (accounts (registry app)) ->
  Map_wf (accounts (registry (run op app))).
Proof.
intros op [a st] Hwf. cbn [registry] in Hwf.
destruct op as [address sdk|sdk|sdk cw w|sdk wallets| |id|address
                |address sdk];
  cbn [run registry active].
- apply updateEthereumWallet_wf. now apply disconnectEffect_wf.
- now apply updateEthereumWallet_wf.
- now apply setPolkadot_wf.
- destruct (reinitialize_accounts sdk wallets st) as (u & Hu & _).
  rewrite Hu. now apply Map_set_all_wf.
- rewrite clearAccounts_empty. constructor.
- now destruct (setSelectedAccountId_fields id st) as (_ & -> & _).
- now apply disconnectEffect_wf.
- now apply updateEthereumWallet_wf.
Qed.

Lemma ethereumAsCreated_run : forall op app,
  wellFormedOp op ->
  Map_wf (accounts (registry app)) ->
  ethereumAsCreated (registry app) = true ->
  ethereumAsCreated (registry (run op app)) = true.
Proof.
intros op [a st] Hop Hwf H. cbn [registry] in *.
destruct op as [address sdk|sdk|sdk cw w|sdk wallets| |id|address
                |address sdk];
  cbn [run registry active].
- apply ethereumAsCreated_update. now apply ethereumAsCreated_purge.
- now apply ethereumAsCreated_update.
- now apply ethereumAsCreated_connect.
- now apply ethereumAsCreated_reinitialize.
- apply ethereumAsCreated_clear.
- now apply ethereumAsCreated_select.
- now apply ethereumAsCreated_purge.
- now apply ethereumAsCreated_update.
Qed.

(** The property holds in every state the provider reaches from its
    first render, refreshes that complete late included, when the saved
    Ethereum entries are as the provider saved them. *)
Lemma ethereumAsCreated_reachable :
  forall (ops : list Op) (a : option string) (h : Heap) (storage : Storage)
         (id : Z),
    Forall wellFormedOp ops ->
    (forall saved doc es k acc,
       getItem "accounts" storage = Some saved ->
       JSON_parse saved = Some doc -> entries_of_json doc = Some es ->
       In (k, acc) es -> isEthereum acc = true -> asCreated acc = true) ->
    ethereumAsCreated
      (registry (runAll ops
                   (mkApp a (restoreEffect (initialState h storage id)))))
    = true.
Proof.
intros ops a h storage id Hops Hsaved.
assert (H : forall ops app,
          Forall wellFormedOp ops ->
          Map_wf (accounts (registry app)) ->
          ethereumAsCreated (registry app) = true ->
          ethereumAsCreated (registry (runAll ops app)) = true).
{ unfold runAll. clear ops Hops.
  induction ops as [|op ops IH]; intros app Hall Hwf Hinv; simpl; auto.
  inversion Hall; subst.
  apply IH; [assumption|now apply run_wf|now apply ethereumAsCreated_run]. }
apply H; [exact Hops| |]; cbn [registry].
- apply restoreEffect_wf. constructor.
- apply ethereumAsCreated_restore; [reflexivity|exact Hsaved].
Qed.

(* ------------------------------------------------------------------ *)
(** ** A change of the active address *)

(** C1, where the code departs from it.  When the wallet reports a new
    address directly after another one, the purge of lines 177-187 does
    not run ([address] is set) and the refresh of lines 96-110 sets the
    key of the new address only.  The record of the previous address
    stays in the map next to the new one: two Ethereum records. *)
Theorem address_switch_keeps_both_ethereum_records :
  forall (sdk1 sdk2 : Sdk) (a b : string) (r1 r2 : BalanceResponse)
         (st : State),
    truthy (Some a) = true -> truthy (Some b) = true ->
    substrateOrMirrorIfEthereumNormalized a
    <> substrateOrMirrorIfEthereumNormalized b ->
    sdk1 (substrateOrMirrorIfEthereumNormalized a) = Fulfilled r1 ->
    sdk2 (substrateOrMirrorIfEthereumNormalized b) = Fulfilled r2 ->
    let st1 := fst (updateEthereumWallet (Some sdk1) (Some a)
                      (disconnectEffect (Some a) st)) in
    let st2 := fst (updateEthereumWallet (Some sdk2) (Some b)
                      (disconnectEffect (Some b) st1)) in
    Map_get (substrateOrMirrorIfEthereumNormalized a) (snapshot st2)
    = Some (ethereumRecord a (Some (balance_of_response r1)))
    /\ Map_get (substrateOrMirrorIfEthereumNormalized b) (snapshot st2)
       = Some (ethereumRecord b (Some (balance_of_response r2)))
    /\ 2 <= ethereumCount st2.
Proof.
intros sdk1 sdk2 a b r1 r2 st Ha Hb Hne H1 H2 st1 st2.
assert (E2 : snapshot st2
             = Map_set (substrateOrMirrorIfEthereumNormalized b)
                 (ethereumRecord b (Some (balance_of_response r2)))
                 (Map_set (substrateOrMirrorIfEthereumNormalized a)
                    (ethereumRecord a (Some (balance_of_response r1)))
                    (snapshot st))).
{ subst st2 st1. rewrite !disconnectEffect_connected by assumption.
  rewrite (updateEthereumWallet_snapshot sdk2 b _ r2 Hb H2).
  now rewrite (updateEthereumWallet_snapshot sdk1 a _ r1 Ha H1). }
assert (Ga : Map_get (substrateOrMirrorIfEthereumNormalized a) (snapshot st2)
             = Some (ethereumRecord a (Some (balance_of_response r1)))).
{ rewrite E2, Map_get_set_other by assumption. apply Map_get_set_same. }
assert (Gb : Map_get (substrateOrMirrorIfEthereumNormalized b) (snapshot st2)
             = Some (ethereumRecord b (Some (balance_of_response r2)))).
{ rewrite E2. apply Map_get_set_same. }
split; [exact Ga|]. split; [exact Gb|].
unfold ethereumCount.
exact (two_marked_entries Account (fun e => isEthereum (snd e))
         (snapshot st2) _ _ _ _ Ga Gb Hne eq_refl eq_refl).
Qed.

(* ------------------------------------------------------------------ *)
(** ** A balance refresh of a registered account *)


(* ------------------------------------------------------------------ *)
(** ** The balance that is stored *)

(** C9.  The balance each of the three operations stores is the double
    [Number(available) / Math.pow(10, decimals)] of the answer to the
    request made for that account.  [Math.pow(10, n)] is the exact power
    up to [10^22]; a run of digits is read as the number it denotes; the
    quotient is the double nearest to the exact quotient (shown for
    every [available] below [400] and every [decimals] up to [22]).  For
    [available = "1500000000000000000"] and [decimals = 18] the stored
    balance is exactly [1.5]. *)
Theorem stored_balance_is_scaled_available :
  (forall (sdk : Sdk) addr st r,
     truthy (Some addr) = true ->
     sdk (substrateOrMirrorIfEthereumNormalized addr) = Fulfilled r ->
     exists a,
       Map_get (substrateOrMirrorIfEthereumNormalized addr)
               (snapshot (fst (updateEthereumWallet (Some sdk) (Some addr)
                                 st)))
       = Some a
       /\ balance a
          = Some (PrimFloat.div (Number (available r))
                                (Math_pow10 (decimals r))))
  /\ (forall (sdk : Sdk) connectWallet walletName st pa k a0,
        connectWallet (walletNameOrDefault walletName) = Fulfilled pa ->
        Map_wf pa -> In (k, a0) pa ->
        snd (setPolkadotAccountsWithBalance (Some sdk) connectWallet
               walletName st) = Fulfilled tt ->
        exists r a,
          sdk k = Fulfilled r
          /\ Map_get k
               (snapshot (fst (setPolkadotAccountsWithBalance (Some sdk)
                                 connectWallet walletName st)))
             = Some a
          /\ balance a
             = Some (PrimFloat.div (Number (available r))
                                   (Math_pow10 (decimals r))))
  /\ (forall (sdk : Sdk) wallets st k l wa w r,
        Map_wf (accounts st) -> NoDup (Map_values (accounts st)) ->
        In (k, l) (accounts st) -> isPolkadot (heap st l) = true ->
        wallets (walletType (heap st l)) = Fulfilled wa ->
        Map_get (normalizedAddress (heap st l)) wa = Some w ->
        sdk k = Fulfilled r ->
        balance (heap (fst (reinitializePolkadotAccountsWithBalance
                              (Some sdk) wallets st)) l)
        = Some (PrimFloat.div (Number (available r))
                              (Math_pow10 (decimals r))))
  /\ (forall n : nat,
        n <= 22 -> integerValue (Math_pow10 n) = Some (10 ^ Z.of_nat n)%Z)
  /\ (forall n : nat,
        n < 4096 ->
        integerValue (Number (NilZero.string_of_uint (Nat.to_uint n)))
        = Some (Z.of_nat n))
  /\ (forall n d : nat,
        n < 400 -> d <= 22 ->
        PrimFloat.eqb
          (PrimFloat.div (Number (NilZero.string_of_uint (Nat.to_uint n)))
                         (Math_pow10 d))
          (Number (NilZero.string_of_uint (Nat.to_uint n) ++ "e-"
                   ++ NilZero.string_of_uint (Nat.to_uint d)))
        = true)
  /\ PrimFloat.div (Number "1500000000000000000") (Math_pow10 18)
     = 1.5%float.
Proof.
split; [|split; [|split; [|split; [|split; [|split]]]]].
- intros sdk addr st r Ht Hs.
  rewrite (updateEthereumWallet_snapshot sdk addr st r Ht Hs).
  rewrite Map_get_set_same. eexists. split; reflexivity.
- intros sdk cw w st pa k a0 Hcw Hwf Hin Hok.
  destruct (setPolkadot_fulfilled sdk cw w st Hok)
    as (pa' & res & Hcw' & _ & Hres & Hst).
  rewrite Hcw in Hcw'. inversion Hcw'; subst pa'.
  assert (Hk : In k (map fst pa))
    by (change k with (fst (k, a0)); now apply in_map).
  destruct (fetchBalances_get sdk pa pa res Hres k) as [Hget _].
  destruct (Hget Hk) as (r & a1 & Hr & _ & Hg).
  assert (Hwfres : Map_wf res).
  { unfold Map_wf. rewrite (fetchBalances_keys sdk pa pa res Hres); auto. }
  exists r. eexists. split; [exact Hr|]. rewrite Hst.
  rewrite accountsEffect_snapshot. unfold snapshot. cbn [heap accounts].
  rewrite (merged_get_new (heap st) (accounts st) res k _ Hwfres
             (Map_get_In _ res k _ Hg)).
  split; reflexivity.
- intros sdk wallets st k l wa w r Hwf Hnd Hin HP HW HM HS.
  rewrite (reinitialize_entry sdk wallets st k l Hwf Hnd Hin).
  unfold reinitializeRecord. now rewrite HP, HW, HM, HS.
- exact Math_pow10_exact.
- exact Number_reads_decimal.
- exact quotient_is_nearest_double.
- exact (proj1 balance_examples).
Qed.

End RecordsAndBalances.

(* ------------------------------------------------------------------ *)
(** ** On concrete registries *)

Section RecordsAndBalancesExamples.
Import Example.


(** Address A, then address B, from the first render. *)
Lemma address_switch_keeps_both_ethereum_records_witness :
  let st1 := fst (updateEthereumWallet (Some sdkOne) (Some "0xA")
                    (disconnectEffect (Some "0xA") start)) in
  let st2 := fst (updateEthereumWallet (Some sdkOne) (Some "0xB")
                    (disconnectEffect (Some "0xB") st1)) in
  Map_keys (accounts st2) = ["mirror:0xA"; "mirror:0xB"]
  /\ 2 <= ethereumCount st2.
Proof.
split; [reflexivity|].
apply (address_switch_keeps_both_ethereum_records (RT := runtime)
         sdkOne sdkOne "0xA" "0xB" oneUnique oneUnique start);
  try reflexivity.
discriminate.
Defined.

(** A refresh that completes after the purge leaves its record as well:
    the registry ends with the records of both addresses. *)
Lemma late_refresh_survives_purge :
  Map_keys
    (accounts
       (registry (runAll lateRefresh
                    (mkApp None (initialState (heap start) emptyStorage 0)))))
  = ["mirror:0xA"; "mirror:0xB"]
  /\ ethereumCount
       (registry (runAll lateRefresh
                    (mkApp None (initialState (heap start) emptyStorage 0))))
     = 2.
Proof. split; reflexivity. Qed.


Lemma stored_balance_is_scaled_available_witness :
  exists a,
    Map_get "mirror:0xA"
      (snapshot (fst (updateEthereumWallet (Some sdkOne) (Some "0xA") start)))
    = Some a
    /\ balance a = Some 1.5%float.
Proof.
destruct (stored_balance_is_scaled_available (RT := runtime))
  as (Hupdate & _ & _ & _ & _ & _ & Hex).
destruct (Hupdate sdkOne "0xA" start oneUnique eq_refl eq_refl)
  as (a & Ha & Hb).
exists a. split; [exact Ha|]. rewrite Hb. exact (f_equal Some Hex).
Defined.

End RecordsAndBalancesExamples.
